(** * phonebook.py: the contact store, its file format and its console commands

    A shallow embedding of [src/phonebook.py] (classes [Contact] and
    [PhoneBook]) and the properties of the store that the specification
    states.

    Modelling conventions.
    - A Python [str] is a Rocq [string]; a character stands for the Unicode
      code point of the same number, so the model covers text over code
      points below 256.  [str.strip], [str.lower] and [str.isdigit] are
      Python's on that range.
    - The value returned by [json.load] is a [json] tree.  A JSON number
      with a fraction or an exponent is a Python [float], here a binary64
      number of Rocq ([PrimFloat.float]), with its own addition and
      comparison; the comparison of a [float] with an [int] is exact, as
      in Python.  A JSON object is an association list in which the first
      binding of a key is the one the dictionary holds.
    - Python exceptions are values of [exn]; a computation that may raise
      returns a [result].
    - [print] is modelled by what a function returns: the numbers of the
      skipped entries for [load_from_file], a [report] for the commands.
    - [input] reads the next of the lines given to the command and raises
      [EOFError] when there is none; an interrupt from the keyboard is not
      modelled.
    - Integers are unbounded: the limit CPython may put on the number of
      digits of an integer it reads or prints is not modelled. *)

From Stdlib Require Import List String Ascii ZArith NArith Bool Lia.
From Stdlib Require Import Floats.PrimFloat Floats.SpecFloat Floats.FloatOps.
Import ListNotations.
Local Open Scope string_scope.
Local Open Scope Z_scope.

(** ** Python strings *)

Module Str.

(** Code point of a character. *)
Definition ord (c : ascii) : N := N_of_ascii c.

Definition between (lo hi n : N) : bool := ((lo <=? n) && (n <=? hi))%N.

(** [c.isspace()]: TAB..CR, FS..US, space, NEL and NBSP. *)
Definition isspace (c : ascii) : bool :=
  let n := ord c in
  (between 9 13 n || between 28 32 n || (n =? 133) || (n =? 160))%N.

(** [s.lstrip()] *)
Fixpoint lstrip (s : string) : string :=
  match s with
  | EmptyString => EmptyString
  | String c s' => if isspace c then lstrip s' else s
  end.

(** [s.rstrip()] *)
Fixpoint rstrip (s : string) : string :=
  match s with
  | EmptyString => EmptyString
  | String c s' =>
      match rstrip s' with
      | EmptyString => if isspace c then EmptyString else String c EmptyString
      | r => String c r
      end
  end.

(** [s.strip()] *)
Definition strip (s : string) : string := rstrip (lstrip s).

(** [c.lower()]: A-Z and the capital letters of the Latin-1 supplement
    (all of U+00C0..U+00DE but the multiplication sign) move up by 32. *)
Definition lower_char (c : ascii) : ascii :=
  let n := ord c in
  if (between 65 90 n || between 192 214 n || between 216 222 n)%N
  then ascii_of_N (n + 32) else c.

(** [s.lower()] *)
Fixpoint lower (s : string) : string :=
  match s with
  | EmptyString => EmptyString
  | String c s' => String (lower_char c) (lower s')
  end.

(** [s.startswith(p)], used to write [p in s]. *)
Fixpoint startswith (p s : string) : bool :=
  match p, s with
  | EmptyString, _ => true
  | String _ _, EmptyString => false
  | String a p', String b s' => Ascii.eqb a b && startswith p' s'
  end.

(** [p in s] for two strings. *)
Fixpoint is_in (p s : string) : bool :=
  startswith p s ||
  match s with
  | EmptyString => false
  | String _ s' => is_in p s'
  end.

(** Truth value of a string: [not s] is [is_empty s]. *)
Definition is_empty (s : string) : bool :=
  match s with EmptyString => true | _ => false end.

(** [c.isdigit()]: the ten digits and the superscripts 2, 3 and 1. *)
Definition isdigit_char (c : ascii) : bool :=
  let n := ord c in
  (between 48 57 n || (n =? 178) || (n =? 179) || (n =? 185))%N.

Definition is_ascii_digit (c : ascii) : bool := between 48 57 (ord c).

Fixpoint all_chars (p : ascii -> bool) (s : string) : bool :=
  match s with
  | EmptyString => true
  | String c s' => p c && all_chars p s'
  end.

(** [s.isdigit()]: false on the empty string. *)
Definition isdigit (s : string) : bool :=
  negb (is_empty s) && all_chars isdigit_char s.

Fixpoint digits_value (acc : Z) (s : string) : Z :=
  match s with
  | EmptyString => acc
  | String c s' => digits_value (10 * acc + (Z.of_N (ord c) - 48)) s'
  end.

(** [int(s)] for an [s] that passed [isdigit]: the superscript digits are
    refused with a [ValueError], here [None]. *)
Definition parse_int (s : string) : option Z :=
  if all_chars is_ascii_digit s then Some (digits_value 0 s) else None.

(** [all(c in allowed for c in s)] *)
Definition all_in (allowed : string) (s : string) : bool :=
  all_chars (fun c => is_in (String c EmptyString) allowed) s.

(** A string that does not begin with a space. *)
Definition starts_nonspace (s : string) : Prop :=
  match s with
  | EmptyString => True
  | String c _ => isspace c = false
  end.

(** [p] occurs in [s]. *)
Definition Substring (p s : string) : Prop :=
  exists a b, s = (a ++ p ++ b)%string.

End Str.

(** ** Values read from the file *)

#[local] Set Warnings "-register-all".

Inductive json : Type :=
| JNull
| JBool (b : bool)
| JInt (z : Z)
| JFloat (f : float)
| JStr (s : string)
| JList (l : list json)
| JDict (d : list (string * json)).

Inductive exn : Type :=
| ValueError | KeyError | TypeError | AttributeError
| JSONDecodeError | OSError | EOFError.

Inductive result (A : Type) : Type :=
| Ok (a : A)
| Raise (e : exn).
Arguments Ok {A} a.
Arguments Raise {A} e.

(** [k in d] and [d.get(k, default)] on a dictionary. *)
Fixpoint dict_get (k : string) (d : list (string * json)) : option json :=
  match d with
  | [] => None
  | (k', v) :: d' => if String.eqb k k' then Some v else dict_get k d'
  end.

Definition has_key (k : string) (d : list (string * json)) : bool :=
  match dict_get k d with Some _ => true | None => false end.

Definition get_default (k : string) (dflt : json) (d : list (string * json)) : json :=
  match dict_get k d with Some v => v | None => dflt end.

(** The integer a Python value is, if it is one: [bool] is a subclass of
    [int], with [True == 1] and [False == 0]. *)
Definition int_of (v : json) : option Z :=
  match v with
  | JInt z => Some z
  | JBool true => Some 1
  | JBool false => Some 0
  | _ => None
  end.

Definition is_none (v : json) : bool :=
  match v with JNull => true | _ => false end.

(** A Python number: an [int] or a [float]. *)
Inductive num : Type :=
| NInt (z : Z)
| NFloat (f : float).

Coercion NInt : Z >-> num.

(** The number a Python value is, if it is one. *)
Definition num_of (v : json) : option num :=
  match v with
  | JInt z => Some (NInt z)
  | JBool true => Some (NInt 1)
  | JBool false => Some (NInt 0)
  | JFloat f => Some (NFloat f)
  | _ => None
  end.

Definition json_of_num (x : num) : json :=
  match x with
  | NInt z => JInt z
  | NFloat f => JFloat f
  end.

Definition signed (negative : bool) (m : positive) : Z :=
  if negative then Z.neg m else Z.pos m.

(** The exact comparison of a [float] with an [int]: nothing for a NaN; an
    infinity is beyond every integer; a finite [float] is [m * 2 ^ e] for
    integers [m] and [e], compared without rounding. *)
Definition float_cmp_int (f : float) (z : Z) : option comparison :=
  match Prim2SF f with
  | S754_nan => None
  | S754_infinity negative => Some (if negative then Lt else Gt)
  | S754_zero _ => Some (0 ?= z)
  | S754_finite negative m e =>
      if 0 <=? e then Some (signed negative m * 2 ^ e ?= z)
      else Some (signed negative m ?= z * 2 ^ (- e))
  end.

(** The integer a [float] is equal to, if there is one. *)
Definition float_int (f : float) : option Z :=
  match Prim2SF f with
  | S754_zero _ => Some 0
  | S754_finite negative m e =>
      if 0 <=? e then Some (signed negative m * 2 ^ e)
      else if (Z.pos m) mod 2 ^ (- e) =? 0
           then Some (signed negative m / 2 ^ (- e))
           else None
  | _ => None
  end.

(** [a > b] on numbers. *)
Definition num_gt (a b : num) : bool :=
  match a, b with
  | NInt x, NInt y => y <? x
  | NFloat f, NFloat g => PrimFloat.ltb g f
  | NFloat f, NInt z =>
      match float_cmp_int f z with Some Gt => true | _ => false end
  | NInt z, NFloat f =>
      match float_cmp_int f z with Some Lt => true | _ => false end
  end.

(** [a + 1] on numbers. *)
Definition num_succ (a : num) : num :=
  match a with
  | NInt z => NInt (z + 1)
  | NFloat f => NFloat (PrimFloat.add f PrimFloat.one)
  end.

(** The integer a Python value is equal to ([==]), if there is one: an
    [int], a [bool], or a [float] without fraction. *)
Definition int_value (v : json) : option Z :=
  match v with
  | JFloat f => float_int f
  | _ => int_of v
  end.

(** [v.strip()]: only a [str] has the method. *)
Definition py_strip (v : json) : result string :=
  match v with
  | JStr s => Ok (Str.strip s)
  | _ => Raise AttributeError
  end.

(** ** class Contact *)

Record Contact : Type := mkContact {
  id : json;            (* [None] is [JNull] *)
  name : string;
  phone : string;
  comment : string
}.

(** [Contact.__init__] on Python values. *)
Definition Contact_init (name phone comment contact_id : json) : result Contact :=
  match py_strip name with
  | Raise e => Raise e
  | Ok n =>
      match py_strip phone with
      | Raise e => Raise e
      | Ok p =>
          match py_strip comment with
          | Raise e => Raise e
          | Ok c => Ok (mkContact contact_id n p c)
          end
      end
  end.

(** [Contact.__init__] called with three strings, as [create_contact] does. *)
Definition new_Contact (name phone comment : string) (contact_id : json) : Contact :=
  mkContact contact_id (Str.strip name) (Str.strip phone) (Str.strip comment).

(** [Contact.to_dict] *)
Definition to_dict (c : Contact) : json :=
  JDict [("id", id c); ("name", JStr (name c));
         ("phone", JStr (phone c)); ("comment", JStr (comment c))].

(** ['name' in l] for a list [l]: equality with some element. *)
Definition list_has_str (k : string) (l : list json) : bool :=
  existsb (fun v => match v with JStr s => String.eqb k s | _ => false end) l.

(** [Contact.from_dict].  On a dictionary without the two required keys the
    [ValueError] of the source is raised.  On anything else than a dictionary
    the call ends in another exception: [in] is refused by [None] and by
    numbers ([TypeError]); on a string or a list either [data.keys()], which
    the error message evaluates, or [data['name']] fails. *)
Definition from_dict (data : json) : result Contact :=
  match data with
  | JDict d =>
      if negb (has_key "name" d) || negb (has_key "phone" d)
      then Raise ValueError
      else Contact_init (get_default "name" JNull d) (get_default "phone" JNull d)
                        (get_default "comment" (JStr "") d)
                        (get_default "id" JNull d)
  | JStr s =>
      if negb (Str.is_in "name" s) || negb (Str.is_in "phone" s)
      then Raise AttributeError else Raise TypeError
  | JList l =>
      if negb (list_has_str "name" l) || negb (list_has_str "phone" l)
      then Raise AttributeError else Raise TypeError
  | JNull | JBool _ | JInt _ | JFloat _ => Raise TypeError
  end.

(** ** class PhoneBook *)

(** The attribute [filename] is left out: every operation on the file takes
    the state of the file at that path as an argument. *)
Record PhoneBook : Type := mkPhoneBook {
  contacts : list Contact;
  next_id : num;
  modified : bool
}.

(** [PhoneBook.__init__] *)
Definition PhoneBook_init : PhoneBook := mkPhoneBook [] 1 false.

(** What is found at [self.filename]: nothing, a file that cannot be opened
    or decoded, a file [json.load] rejects, or a file it reads. *)
Inductive file : Type :=
| NoFile
| Unreadable
| Garbage
| Json (data : json).

(** The elements [enumerate] runs over: those of a list, the characters of a
    string, the keys of a dictionary; the other values are not iterable.  A
    character or a key is a string, on which [from_dict] fails, so only
    whether there is one matters. *)
Definition py_iter (v : json) : result (list json) :=
  match v with
  | JList l => Ok l
  | JStr s => Ok (map (fun c => JStr (String c EmptyString)) (list_ascii_of_string s))
  | JDict d => Ok (map (fun kv => JStr (fst kv)) d)
  | JNull | JBool _ | JInt _ | JFloat _ => Raise TypeError
  end.

(** The first loop of [load_from_file], from entry number [i] on: the
    contacts built, the numbers [i+1] printed in the warnings, and the
    exception that ended the loop, if any.  A [ValueError] or [KeyError]
    skips the entry with a warning; any other exception leaves the loop,
    after the warnings for the entries before. *)
Fixpoint read_contacts (i : nat) (entries : list json)
  : list Contact * list nat * option exn :=
  match entries with
  | [] => ([], [], None)
  | contact_data :: rest =>
      match from_dict contact_data with
      | Ok c =>
          let '(cs, ws, x) := read_contacts (S i) rest in (c :: cs, ws, x)
      | Raise ValueError | Raise KeyError =>
          let '(cs, ws, x) := read_contacts (S i) rest in (cs, S i :: ws, x)
      | Raise e => ([], [], Some e)
      end
  end.

Fixpoint ints_of (vs : list json) : option (list Z) :=
  match vs with
  | [] => Some []
  | v :: vs' =>
      match int_of v, ints_of vs' with
      | Some z, Some zs => Some (z :: zs)
      | _, _ => None
      end
  end.

Fixpoint nums_of (vs : list json) : option (list num) :=
  match vs with
  | [] => Some []
  | v :: vs' =>
      match num_of v, nums_of vs' with
      | Some x, Some xs => Some (x :: xs)
      | _, _ => None
      end
  end.

(** [max] on a list of numbers that begins with [first]: the first of the
    greatest, found with [>]. *)
Definition py_max (first : num) (others : list num) : num :=
  fold_left (fun best item => if num_gt item best then item else best)
            others first.

(** [max(ids) + 1] on a non-empty list of values other than [None].  When
    every value is a number this is the sum.  When one is a string, a list
    or a dictionary, either [max] cannot compare it with the others or
    [+ 1] is refused on the maximum: a [TypeError] in both cases. *)
Definition max_plus_one (ids : list json) : result num :=
  match nums_of ids with
  | Some (x :: xs) => Ok (num_succ (py_max x xs))
  | Some [] => Raise ValueError
  | None => Raise TypeError
  end.

Definition set_id (c : Contact) (v : json) : Contact :=
  mkContact v (name c) (phone c) (comment c).

(** The second loop of [load_from_file]: the contacts after the assignment,
    [self.next_id] and [modified_by_id_assignment]. *)
Fixpoint assign_ids (next : num) (cs : list Contact)
  : list Contact * num * bool :=
  match cs with
  | [] => ([], next, false)
  | c :: cs' =>
      if is_none (id c)
      then let '(r, n, _) := assign_ids (num_succ next) cs' in
           (set_id c (json_of_num next) :: r, n, true)
      else let '(r, n, m) := assign_ids next cs' in
           (c :: r, n, m)
  end.

Record load_result : Type := mkLoad {
  ok : bool;                (* the value returned *)
  skipped : list nat;       (* the entries a warning was printed for *)
  book : PhoneBook          (* the object after the call *)
}.

Definition ids_with_values (cs : list Contact) : list json :=
  filter (fun v => negb (is_none v)) (map id cs).

(** The value computed for [self.next_id] before the identifiers are
    assigned, for a list of contacts that is not empty. *)
Definition first_free (cs : list Contact) : result num :=
  match ids_with_values cs with
  | [] => Ok (NInt 1)
  | ids => max_plus_one ids
  end.

(** [PhoneBook.load_from_file] *)
Definition load_from_file (self : PhoneBook) (f : file) : load_result :=
  match f with
  | NoFile => mkLoad true [] self
  | Unreadable | Garbage => mkLoad false [] self
  | Json (JDict d) =>
      match py_iter (get_default "contacts" (JList []) d) with
      | Raise _ => mkLoad false [] self
      | Ok entries =>
          match read_contacts 0 entries with
          | (_, ws, Some _) => mkLoad false ws self
          | (contacts_list, ws, None) =>
              let self1 := mkPhoneBook contacts_list (next_id self) (modified self) in
              match contacts_list with
              | [] => mkLoad true ws (mkPhoneBook [] 1 false)
              | _ :: _ =>
                  match first_free contacts_list with
                  | Raise _ => mkLoad false ws self1
                  | Ok n =>
                      let '(cs, n', assigned) := assign_ids n contacts_list in
                      mkLoad true ws
                        (mkPhoneBook cs n' (if assigned then modified self else false))
                  end
              end
          end
      end
  | Json _ => mkLoad false [] self      (* no method [get] *)
  end.

(** What happens to the file in [save_to_file]: it is written; or
    [open(..., 'w')] fails and the file stays as it was; or the file was
    opened, which empties it, and the writing fails, which leaves a part of
    the text, possibly none, that [json.load] rejects. *)
Inductive save_io : Type :=
| WriteOk
| OpenFails
| WriteFails.

(** [PhoneBook.save_to_file]: [disk] is the file before the call, [io] what
    happens to the file and [now] the time stamp.  Returns the value
    returned, the object and the file after the call. *)
Definition save_to_file (self : PhoneBook) (disk : file) (io : save_io)
    (now : string) : bool * PhoneBook * file :=
  match io with
  | WriteOk =>
      (true,
       mkPhoneBook (contacts self) (next_id self) false,
       Json (JDict [("contacts", JList (map to_dict (contacts self)));
                    ("last_updated", JStr now)]))
  | OpenFails => (false, self, disk)
  | WriteFails => (false, self, Garbage)
  end.

(** [PhoneBook.has_unsaved_changes] *)
Definition has_unsaved_changes (self : PhoneBook) : bool := modified self.

(** ** The console commands *)

(** A command runs on the object and on the lines still to be read from the
    standard input; it ends normally or with an exception, and in both cases
    leaves an object behind: what was assigned before an exception stays
    assigned. *)
Inductive res (A : Type) : Type :=
| Done (a : A) (self : PhoneBook) (rest : list string)
| Exc (e : exn) (self : PhoneBook) (rest : list string).
Arguments Done {A} a self rest.
Arguments Exc {A} e self rest.

Definition M (A : Type) : Type := PhoneBook -> list string -> res A.

Definition ret {A} (a : A) : M A := fun self inp => Done a self inp.

Definition bind {A B} (m : M A) (k : A -> M B) : M B :=
  fun self inp =>
    match m self inp with
    | Done a self' inp' => k a self' inp'
    | Exc e self' inp' => Exc e self' inp'
    end.

Notation "x <- m ;; k" := (bind m (fun x => k))
  (at level 61, m at next level, right associativity).
Notation "m ;;; k" := (bind m (fun _ => k))
  (at level 61, right associativity).

Definition raise {A} (e : exn) : M A := fun self inp => Exc e self inp.

(** [input(...)]: the next line, or [EOFError] at the end of the input. *)
Definition input : M string :=
  fun self inp =>
    match inp with
    | [] => Exc EOFError self []
    | l :: rest => Done l self rest
    end.

Definition get_self : M PhoneBook := fun self inp => Done self self inp.

Definition update_self (f : PhoneBook -> PhoneBook) : M unit :=
  fun self inp => Done tt (f self) inp.

(** What a command prints, as far as the properties below need it. *)
Inductive report : Type :=
| BookEmpty                                   (* the book has no contacts *)
| NameEmpty
| PhoneEmpty
| Created (c : Contact) (phone_ok : bool)
| TermEmpty
| Results (found : list Contact)
| IdNotNumber
| NotFound (n : Z)
| Edited (n : Z)
| Deleted (n : Z)
| DeleteCancelled
| Failed (e : exn).                           (* [except Exception as e] *)

(** The [try ... except Exception] around the body of a command. *)
Definition run (body : M report) (self : PhoneBook) (inp : list string)
  : report * PhoneBook * list string :=
  match body self inp with
  | Done r self' rest => (r, self', rest)
  | Exc e self' rest => (Failed e, self', rest)
  end.

(** [PhoneBook._validate_phone] *)
Definition validate_phone (phone : string) : bool :=
  Str.all_in "0123456789+-() " phone.

(** [PhoneBook.create_contact] *)
Definition create_contact : PhoneBook -> list string -> report * PhoneBook * list string :=
  run (
    l <- input ;;
    let name := Str.strip l in
    if Str.is_empty name then ret NameEmpty else
    l <- input ;;
    let phone := Str.strip l in
    if Str.is_empty phone then ret PhoneEmpty else
    l <- input ;;
    let comment := Str.strip l in
    self <- get_self ;;
    let contact := new_Contact name phone comment (json_of_num (next_id self)) in
    update_self (fun s =>
      mkPhoneBook (contacts s ++ [contact]) (num_succ (next_id s)) true) ;;;
    ret (Created contact (validate_phone phone))).

(** The field a search looks at. *)
Inductive field : Type := ByName | ByPhone | ByComment | All.

(** The four choices of the search menu; anything else is the search over
    all the fields. *)
Definition field_of_choice (choice : string) : field :=
  if String.eqb choice "1" then ByName
  else if String.eqb choice "2" then ByPhone
  else if String.eqb choice "3" then ByComment
  else All.

Definition matches (fld : field) (search_term : string) (c : Contact) : bool :=
  match fld with
  | ByName => Str.is_in search_term (Str.lower (name c))
  | ByPhone => Str.is_in search_term (Str.lower (phone c))
  | ByComment => Str.is_in search_term (Str.lower (comment c))
  | All => Str.is_in search_term (Str.lower (name c))
           || Str.is_in search_term (Str.lower (phone c))
           || Str.is_in search_term (Str.lower (comment c))
  end.

(** [PhoneBook.find_contact] *)
Definition find_contact (self : PhoneBook) (inp : list string)
  : report * PhoneBook * list string :=
  match contacts self with
  | [] => (BookEmpty, self, inp)
  | _ :: _ =>
      run (
        l <- input ;;
        let choice := Str.strip l in
        l <- input ;;
        let search_term := Str.lower (Str.strip l) in
        if Str.is_empty search_term then ret TermEmpty else
        s <- get_self ;;
        ret (Results (filter (matches (field_of_choice choice) search_term)
                             (contacts s)))) self inp
  end.

(** [contact.id == contact_id] for an integer [contact_id]. *)
Definition id_is (contact_id : Z) (c : Contact) : bool :=
  match int_value (id c) with
  | Some z => Z.eqb z contact_id
  | None => false
  end.

(** [PhoneBook._find_by_id]: the object found is named by its position in
    [self.contacts]. *)
Fixpoint find_by_id (cs : list Contact) (contact_id : Z) : option nat :=
  match cs with
  | [] => None
  | c :: cs' =>
      if id_is contact_id c then Some O
      else option_map S (find_by_id cs' contact_id)
  end.

(** An assignment to an attribute of the object at position [i]. *)
Fixpoint update_at (i : nat) (f : Contact -> Contact) (cs : list Contact)
  : list Contact :=
  match cs, i with
  | [], _ => []
  | c :: cs', O => f c :: cs'
  | c :: cs', S i' => c :: update_at i' f cs'
  end.

(** [self.contacts.remove(contact)] for the object at position [i]. *)
Fixpoint remove_at (i : nat) (cs : list Contact) : list Contact :=
  match cs, i with
  | [], _ => []
  | _ :: cs', O => cs'
  | c :: cs', S i' => c :: remove_at i' cs'
  end.

Definition set_name (v : string) (c : Contact) : Contact :=
  mkContact (id c) v (phone c) (comment c).
Definition set_phone (v : string) (c : Contact) : Contact :=
  mkContact (id c) (name c) v (comment c).
Definition set_comment (v : string) (c : Contact) : Contact :=
  mkContact (id c) (name c) (phone c) v.

Definition assign (i : nat) (f : Contact -> Contact) : M unit :=
  update_self (fun s =>
    mkPhoneBook (update_at i f (contacts s)) (next_id s) (modified s)).

(** The prompt for the identifier, shared by [edit_contact] and
    [delete_contact]: the identifier typed and the position of the contact,
    or the report that ends the command. *)
Definition ask_contact : M (report + Z * nat) :=
  l <- input ;;
  let contact_id := Str.strip l in
  if negb (Str.isdigit contact_id) then ret (inl IdNotNumber) else
  match Str.parse_int contact_id with
  | None => raise ValueError
  | Some n =>
      self <- get_self ;;
      match find_by_id (contacts self) n with
      | None => ret (inl (NotFound n))
      | Some i => ret (inr (n, i))
      end
  end.

(** [PhoneBook.edit_contact] *)
Definition edit_contact (self : PhoneBook) (inp : list string)
  : report * PhoneBook * list string :=
  match contacts self with
  | [] => (BookEmpty, self, inp)
  | _ :: _ =>
      run (
        r <- ask_contact ;;
        match r with
        | inl stop => ret stop
        | inr (contact_id, i) =>
            l <- input ;;
            let new_name := Str.strip l in
            (if Str.is_empty new_name then ret tt
             else assign i (set_name new_name)) ;;;
            l <- input ;;
            let new_phone := Str.strip l in
            (if Str.is_empty new_phone then ret tt
             else assign i (set_phone new_phone)) ;;;
            l <- input ;;
            let new_comment := Str.strip l in
            (if Str.is_empty new_comment then ret tt
             else assign i (set_comment new_comment)) ;;;
            update_self (fun s =>
              mkPhoneBook (contacts s) (next_id s) true) ;;;
            ret (Edited contact_id)
        end) self inp
  end.

(** The answers that confirm a deletion.  The source also accepts two
    Cyrillic words, which lie outside the characters of the model. *)
Definition confirms (answer : string) : bool :=
  String.eqb answer "yes" || String.eqb answer "y".

(** [PhoneBook.delete_contact] *)
Definition delete_contact (self : PhoneBook) (inp : list string)
  : report * PhoneBook * list string :=
  match contacts self with
  | [] => (BookEmpty, self, inp)
  | _ :: _ =>
      run (
        r <- ask_contact ;;
        match r with
        | inl stop => ret stop
        | inr (contact_id, i) =>
            l <- input ;;
            let confirm := Str.lower (Str.strip l) in
            if confirms confirm
            then update_self (fun s =>
                   mkPhoneBook (remove_at i (contacts s)) (next_id s) true) ;;;
                 ret (Deleted contact_id)
            else ret DeleteCancelled
        end) self inp
  end.

(** ** The program *)

(** The state of a run of [main]: the book, the attribute [filename] of the
    book, the files by path, and the number of calls of [save_to_file] so
    far, which tells the time stamp of the next one. *)
Record App : Type := mkApp {
  phonebook : PhoneBook;
  filename : string;
  files : string -> file;
  saves : nat
}.

Definition set_phonebook (st : App) (pb : PhoneBook) : App :=
  mkApp pb (filename st) (files st) (saves st).

(** [os.path.exists] *)
Definition path_exists (f : file) : bool :=
  match f with NoFile => false | _ => true end.

(** [phonebook.load_from_file()] on the file at [phonebook.filename]. *)
Definition load_app (st : App) : App :=
  set_phonebook st (book (load_from_file (phonebook st) (files st (filename st)))).

(** [phonebook.save_to_file()]: [io] tells what happens to the file at a
    path when it is saved and [clock] the time stamp of each call. *)
Definition save_app (io : string -> save_io) (clock : nat -> string)
    (st : App) : App :=
  let '(_, pb, f) :=
    save_to_file (phonebook st) (files st (filename st))
                 (io (filename st)) (clock (saves st)) in
  mkApp pb (filename st)
        (fun path => if String.eqb path (filename st) then f else files st path)
        (S (saves st)).

(** Choice 8: with unsaved changes the user is asked, and the book is saved
    on an answer that confirms; at the end of the input nothing is saved. *)
Definition exit_app (io : string -> save_io) (clock : nat -> string)
    (st : App) (inp : list string) : App :=
  if has_unsaved_changes (phonebook st)
  then match inp with
       | [] => st
       | l :: _ =>
           if confirms (Str.lower (Str.strip l))
           then save_app io clock st else st
       end
  else st.

Definition run_command
    (command : PhoneBook -> list string -> report * PhoneBook * list string)
    (st : App) (inp : list string) : App * list string :=
  let '(_, pb, rest) := command (phonebook st) inp in (set_phonebook st pb, rest).

(** One turn of the loop of [main]: the program goes on with the lines that
    are left, or ends. *)
Inductive turn : Type :=
| Continue (st : App) (rest : list string)
| Stop (st : App).

Definition menu_step (io : string -> save_io) (clock : nat -> string)
    (st : App) (inp : list string) : turn :=
  match inp with
  | [] => Stop st                               (* [except EOFError] *)
  | l :: rest =>
      let choice := Str.strip l in
      if String.eqb choice "1" then
        match rest with
        | [] => Stop st                         (* [except EOFError] *)
        | l' :: rest' =>
            let name := Str.strip l' in
            let st' := if Str.is_empty name then st
                       else mkApp (phonebook st) name (files st) (saves st) in
            Continue (load_app st') rest'
        end
      else if String.eqb choice "2" then Continue (save_app io clock st) rest
      else if String.eqb choice "3" then Continue st rest
      else if String.eqb choice "4" then
        let '(st', rest') := run_command create_contact st rest in Continue st' rest'
      else if String.eqb choice "5" then
        let '(st', rest') := run_command find_contact st rest in Continue st' rest'
      else if String.eqb choice "6" then
        let '(st', rest') := run_command edit_contact st rest in Continue st' rest'
      else if String.eqb choice "7" then
        let '(st', rest') := run_command delete_contact st rest in Continue st' rest'
      else if String.eqb choice "8" then Stop (exit_app io clock st rest)
      else Continue st rest
  end.

(** The loop of [main], for at most [fuel] turns. *)
Fixpoint main_loop (io : string -> save_io) (clock : nat -> string)
    (fuel : nat) (st : App) (inp : list string) : option App :=
  match fuel with
  | O => None
  | S fuel' =>
      match menu_step io clock st inp with
      | Stop st' => Some st'
      | Continue st' rest => main_loop io clock fuel' st' rest
      end
  end.

(** The state in which the loop of [main] starts: a new book, loaded from
    [phonebook.json] when this file exists. *)
Definition start (disk : string -> file) : App :=
  let st := mkApp PhoneBook_init "phonebook.json" disk 0 in
  if path_exists (disk "phonebook.json") then load_app st else st.

(** [main], with as many turns as there are lines and one more. *)
Definition main (io : string -> save_io) (clock : nat -> string)
    (disk : string -> file) (inp : list string) : option App :=
  main_loop io clock (S (List.length inp)) (start disk) inp.

(** * The vocabulary of the statements *)

(** The match a search asks for, in the words of the specification. *)
Definition Matches (fld : field) (term : string) (c : Contact) : Prop :=
  match fld with
  | ByName => Str.Substring term (Str.lower (name c))
  | ByPhone => Str.Substring term (Str.lower (phone c))
  | ByComment => Str.Substring term (Str.lower (comment c))
  | All => Str.Substring term (Str.lower (name c)) \/
           Str.Substring term (Str.lower (phone c)) \/
           Str.Substring term (Str.lower (comment c))
  end.

(** The value of a field after a prompt of [edit_contact]. *)
Definition keep_or (old line : string) : string :=
  if Str.is_empty (Str.strip line) then old else Str.strip line.

Definition is_str (v : json) : bool :=
  match v with JStr _ => true | _ => false end.

Definition is_int (v : json) : bool :=
  match int_of v with Some _ => true | None => false end.

(** An entry that has the two required keys. *)
Definition required (e : json) : bool :=
  match e with
  | JDict d => has_key "name" d && has_key "phone" d
  | _ => false
  end.

(** The value under the key [id] of an entry, [None] when there is none. *)
Definition entry_id (e : json) : json :=
  match e with
  | JDict d => get_default "id" JNull d
  | _ => JNull
  end.

(** An entry is an object, and if it has the required keys then its name,
    its phone and its comment, if any, are strings. *)
Definition readable (e : json) : bool :=
  match e with
  | JDict d =>
      negb (required e) ||
      (is_str (get_default "name" JNull d) &&
       is_str (get_default "phone" JNull d) &&
       is_str (get_default "comment" (JStr "") d))
  | _ => false
  end.

(** A readable entry whose identifier, if any, is an integer. *)
Definition well_formed (e : json) : bool :=
  readable e && (negb (required e) || is_none (entry_id e) || is_int (entry_id e)).

(** The contact an entry with the required keys stands for. *)
Definition describes (e : json) (c : Contact) : Prop :=
  exists d n p,
    e = JDict d /\
    dict_get "name" d = Some (JStr n) /\ name c = Str.strip n /\
    dict_get "phone" d = Some (JStr p) /\ phone c = Str.strip p /\
    (dict_get "comment" d = None /\ comment c = EmptyString \/
     exists s, dict_get "comment" d = Some (JStr s) /\ comment c = Str.strip s) /\
    id c = get_default "id" JNull d.

(** The warnings of [read_contacts] name the entries without the required
    keys, counted from one. *)
Definition warned_at (i : nat) (entries : list json) (k : nat) : Prop :=
  exists j e, k = S (i + j) /\ nth_error entries j = Some e /\ required e = false.

(** The integer the identifier of a contact is equal to, if there is one. *)
Definition id_num (c : Contact) : option Z := int_value (id c).

Definition has_id (c : Contact) : bool := negb (is_none (id c)).

(** Every contact has an identifier that is equal to an integer below
    [n]. *)
Definition ids_below (n : Z) (cs : list Contact) : Prop :=
  Forall (fun c => exists z, id_num c = Some z /\ z < n) cs.

(** Every identifier there is, is equal to an integer below [n]. *)
Definition known_below (n : Z) (cs : list Contact) : Prop :=
  Forall (fun c => id c = JNull \/ exists z, id_num c = Some z /\ z < n) cs.

Definition ids_distinct (cs : list Contact) : Prop := NoDup (map id_num cs).


Definition count_none (cs : list Contact) : nat :=
  List.length (filter (fun c => is_none (id c)) cs).

(** The entries [load_from_file] runs over in a file that was decoded. *)
Definition file_entries (data : json) : result (list json) :=
  match data with
  | JDict d => py_iter (get_default "contacts" (JList []) d)
  | _ => Raise AttributeError
  end.

(** The identifiers written in the file, for the entries that are read. *)
Definition file_ids (entries : list json) : list json :=
  filter (fun v => negb (is_none v)) (map entry_id (filter required entries)).

(** A command keeps a property of the object when the property holds of the
    object it leaves, also when it leaves with an exception. *)
Definition keeps {A} (P : PhoneBook -> Prop) (m : M A) : Prop :=
  forall self inp, P self ->
    match m self inp with
    | Done _ self' _ => P self'
    | Exc _ self' _ => P self'
    end.

(** Sample data: an entry with a name, a phone and further keys, and the
    file that holds the given entries. *)
Definition entry (n p : string) (extra : list (string * json)) : json :=
  JDict (("name", JStr n) :: ("phone", JStr p) :: extra).

Definition file_of (entries : list json) : file :=
  Json (JDict [("contacts", JList entries)]).

(** Two entries without identifier around one with identifier 5 and one
    without phone. *)
Definition sample_entries : list json :=
  [entry " Ann " "555" []; entry "Bob" "777" [("id", JInt 5)];
   JDict [("name", JStr "Cid")]; entry "Dan" "999" [("comment", JStr "home")]].


(** A book with one contact and unsaved changes. *)
Definition ann : Contact := mkContact (JInt 1) "Ann" "555" "".

Definition ann_book : PhoneBook := mkPhoneBook [ann] 2 true.


(** The contact loaded for an entry: its fields are those of the entry,
    stripped; its identifier is the one of the entry, or a number when the
    entry has none. *)
Definition loaded_from (e : json) (c : Contact) : Prop :=
  exists c0, describes e c0 /\
    name c = name c0 /\ phone c = phone c0 /\ comment c = comment c0 /\
    if is_none (id c0) then exists x, id c = json_of_num x else id c = id c0.

Definition assigned_from (c c' : Contact) : Prop :=
  name c' = name c /\ phone c' = phone c /\ comment c' = comment c /\
  if is_none (id c) then exists x, id c' = json_of_num x else id c' = id c.

(** An identifier that was given to an entry without one is an integer. *)
Definition assigned_int (e : json) (c : Contact) : Prop :=
  is_none (entry_id e) = true -> exists z, id c = JInt z.

Definition is_num (v : json) : bool :=
  match num_of v with Some _ => true | None => false end.

(** A readable entry whose identifier, if any, is a number. *)
Definition loadable (e : json) : bool :=
  readable e && (negb (required e) || is_none (entry_id e) || is_num (entry_id e)).

(** The fields of a contact are stripped. *)
Definition stripped (c : Contact) : Prop :=
  Str.strip (name c) = name c /\ Str.strip (phone c) = phone c /\
  Str.strip (comment c) = comment c.

(** A book whose contacts have stripped fields and integer identifiers:
    the books that the commands and the loads build. *)
Definition tidy (self : PhoneBook) : Prop :=
  Forall stripped (contacts self) /\
  Forall (fun c => is_int (id c) = true) (contacts self).

(** The first identifier that is free in a file: one more than the greatest
    identifier written in it, and 1 when none is written. *)
Definition base_id (ids : list json) : Z :=
  match ints_of ids with
  | Some (z :: zs) => fold_left Z.max zs z + 1
  | _ => 1
  end.

(** The same on numbers of any kind: what [max(ids) + 1] gives. *)
Definition base_num (ids : list json) : num :=
  match ids with
  | [] => NInt 1
  | _ :: _ => match max_plus_one ids with Ok n => n | Raise _ => NInt 1 end
  end.

(** The number of entries without identifier among the first [j]. *)
Definition missing_before (j : nat) (es : list json) : nat :=
  List.length (filter (fun e => is_none (entry_id e)) (firstn j es)).

(** The book of the search example of the specification. *)
Definition ivan : Contact := mkContact (JInt 1) "Ivan Petrov" "111" "".

Definition maria : Contact := mkContact (JInt 2) "Maria" "222" "ask Ivan".

Definition oleg : Contact := mkContact (JInt 3) "Oleg" "333" "".

Definition ivan_book : PhoneBook := mkPhoneBook [ivan; maria; oleg] 4 false.

(** A report that tells that the book was changed. *)
Definition is_change (r : report) : bool :=
  match r with
  | Created _ _ | Edited _ | Deleted _ => true
  | _ => false
  end.

(** A command that starts on a book without unsaved changes sets [modified]
    exactly when it reports a change. *)
Definition tracks (m : M report) : Prop :=
  forall self inp, modified self = false ->
    match m self inp with
    | Done r self' _ => modified self' = is_change r
    | Exc _ self' _ => modified self' = false
    end.

(** The characters [_validate_phone] accepts. *)
Definition phone_chars : list ascii :=
  list_ascii_of_string "0123456789+-() ".

(** A command reads at most [k] lines, from the front of the input. *)
Definition reads {A} (k : nat) (m : M A) : Prop :=
  forall self inp,
    match m self inp with
    | Done _ _ rest => exists used, inp = (used ++ rest)%list /\ (List.length used <= k)%nat
    | Exc _ _ rest => exists used, inp = (used ++ rest)%list /\ (List.length used <= k)%nat
    end.

(** The file [save_to_file] writes for a list of contacts. *)
Definition book_file (cs : list Contact) (now : string) : file :=
  Json (JDict [("contacts", JList (map to_dict cs)); ("last_updated", JStr now)]).

(** * Properties *)

(** ** Strings *)

Module StrFacts.
Import Str.

Lemma lstrip_starts_nonspace (s : string) : starts_nonspace (lstrip s).
Proof.
  induction s as [|c s IH]; simpl; [exact I|].
  destruct (isspace c) eqn:E; [exact IH | exact E].
Qed.

Lemma lstrip_fixed (s : string) : starts_nonspace s -> lstrip s = s.
Proof.
  destruct s as [|c s]; simpl; [reflexivity|].
  intros ->. reflexivity.
Qed.

Lemma rstrip_starts_nonspace (s : string) :
  starts_nonspace s -> starts_nonspace (rstrip s).
Proof.
  destruct s as [|c s]; simpl; [exact (fun H => H)|].
  intros H. destruct (rstrip s); [rewrite H|]; exact H.
Qed.

Lemma rstrip_idem (s : string) : rstrip (rstrip s) = rstrip s.
Proof.
  induction s as [|c s IH]; [reflexivity|].
  simpl. destruct (rstrip s) as [|a r] eqn:E.
  - destruct (isspace c) eqn:Ec; [reflexivity|].
    simpl. rewrite Ec. reflexivity.
  - change (rstrip (String c (String a r)))
      with (match rstrip (String a r) with
            | EmptyString => if isspace c then EmptyString else String c EmptyString
            | r' => String c r'
            end).
    rewrite IH. reflexivity.
Qed.

(** Stripping a stripped string changes nothing. *)
Lemma strip_idem (s : string) : strip (strip s) = strip s.
Proof.
  unfold strip.
  rewrite (lstrip_fixed (rstrip (lstrip s))).
  - apply rstrip_idem.
  - apply rstrip_starts_nonspace, lstrip_starts_nonspace.
Qed.

Lemma is_empty_true (s : string) : is_empty s = true <-> s = EmptyString.
Proof. destruct s; simpl; split; congruence. Qed.

Lemma is_empty_false (s : string) : is_empty s = false <-> s <> EmptyString.
Proof. destruct s; simpl; split; congruence. Qed.

Lemma is_empty_lower (s : string) : is_empty (lower s) = is_empty s.
Proof. destruct s; reflexivity. Qed.

Lemma length_lower (s : string) : String.length (lower s) = String.length s.
Proof. induction s; simpl; congruence. Qed.

(** [startswith] and [is_in] decide the prefix and the substring relation. *)
Lemma startswith_iff (p s : string) :
  startswith p s = true <-> exists b, s = (p ++ b)%string.
Proof.
  revert s. induction p as [|a p IH]; intros s; simpl.
  - split; [intros _; exists s; reflexivity | reflexivity].
  - destruct s as [|b s].
    + split; [discriminate | intros [t H]; discriminate].
    + rewrite andb_true_iff, Ascii.eqb_eq, IH. split.
      * intros [-> [t ->]]. exists t. reflexivity.
      * intros [t H]. injection H as -> ->. split; [reflexivity | exists t; reflexivity].
Qed.

Lemma is_in_iff (p s : string) : is_in p s = true <-> Substring p s.
Proof.
  unfold Substring. induction s as [|c s IH].
  - simpl. rewrite orb_false_r, startswith_iff. split.
    + intros [b H]. exists EmptyString, b. exact H.
    + intros [a [b H]]. destruct a; [exists b; exact H | discriminate].
  - cbn [is_in]. rewrite orb_true_iff, startswith_iff, IH. split.
    + intros [[b H] | [a [b H]]].
      * exists EmptyString, b. exact H.
      * exists (String c a), b. simpl. rewrite H. reflexivity.
    + intros [a [b H]]. destruct a as [|c' a].
      * left. exists b. exact H.
      * right. simpl in H. injection H as _ H. exists a, b. exact H.
Qed.

End StrFacts.

(** ** create_contact *)



(** ** find_contact *)

Lemma matches_iff (fld : field) (term : string) (c : Contact) :
  matches fld term c = true <-> Matches fld term c.
Proof.
  destruct fld; simpl; rewrite ?orb_true_iff, ?StrFacts.is_in_iff; tauto.
Qed.

(** C7.  On a book that has contacts, a search term that is not empty once
    stripped selects exactly the contacts in which the lowercased term is a
    substring of the lowercased field chosen (of one of the three fields for
    the search over all of them), in the order of the book; a term that is
    empty once stripped is refused and nothing is selected.  Choices 1, 2
    and 3 are the name, the phone and the comment, choice 4 all of them. *)
Theorem find_contact_spec (self : PhoneBook) (l_choice l_term : string)
    (rest : list string) :
  contacts self <> [] ->
  let term := Str.lower (Str.strip l_term) in
  let fld := field_of_choice (Str.strip l_choice) in
  (Str.strip l_term = EmptyString ->
   find_contact self (l_choice :: l_term :: rest) = (TermEmpty, self, rest)) /\
  (Str.strip l_term <> EmptyString ->
   exists p,
     find_contact self (l_choice :: l_term :: rest)
       = (Results (filter p (contacts self)), self, rest) /\
     forall c, p c = true <-> Matches fld term c) /\
  (field_of_choice "1" = ByName /\ field_of_choice "2" = ByPhone /\
   field_of_choice "3" = ByComment /\ field_of_choice "4" = All).
Proof.
  intros Hne term fld.
  unfold find_contact. destruct (contacts self) as [|c0 cs] eqn:Ecs; [congruence|].
  unfold run, bind, input.
  assert (Hemp : Str.is_empty term = Str.is_empty (Str.strip l_term))
    by apply StrFacts.is_empty_lower.
  fold term. rewrite Hemp.
  split; [|split].
  - intros H. rewrite H. reflexivity.
  - intros H. apply StrFacts.is_empty_false in H. rewrite H.
    exists (matches fld term). split.
    + unfold get_self, ret. rewrite Ecs. reflexivity.
    + intros c. apply matches_iff.
  - repeat split.
Qed.

(** ** edit_contact and delete_contact *)

Lemma find_by_id_Some (cs : list Contact) (n : Z) (i : nat) :
  find_by_id cs n = Some i ->
  exists c, nth_error cs i = Some c /\ id_is n c = true /\
    forall j c', (j < i)%nat -> nth_error cs j = Some c' -> id_is n c' = false.
Proof.
  revert i. induction cs as [|c cs IH]; intros i; simpl; [discriminate|].
  destruct (id_is n c) eqn:E.
  - intros [= <-]. exists c. repeat split; [exact E|]. intros j c' Hj. lia.
  - destruct (find_by_id cs n) as [k|]; [|discriminate].
    intros [= <-]. destruct (IH k eq_refl) as [c1 [H1 [H2 H3]]].
    exists c1. repeat split; [exact H1 | exact H2 |].
    intros [|j] c' Hj; simpl.
    + intros [= <-]. exact E.
    + apply H3. lia.
Qed.

Lemma nth_error_update_at_eq (i : nat) (f : Contact -> Contact) (cs : list Contact) :
  nth_error (update_at i f cs) i = option_map f (nth_error cs i).
Proof.
  revert i. induction cs as [|c cs IH]; intros [|i]; simpl; auto.
Qed.

Lemma nth_error_update_at_neq (i j : nat) (f : Contact -> Contact) (cs : list Contact) :
  j <> i -> nth_error (update_at i f cs) j = nth_error cs j.
Proof.
  revert i j. induction cs as [|c cs IH]; intros [|i] [|j] H; simpl; auto.
  congruence.
Qed.

Lemma length_update_at (i : nat) (f : Contact -> Contact) (cs : list Contact) :
  List.length (update_at i f cs) = List.length cs.
Proof.
  revert i. induction cs as [|c cs IH]; intros [|i]; simpl; auto.
Qed.

Lemma update_at_twice (i : nat) (f g : Contact -> Contact) (cs : list Contact) :
  update_at i g (update_at i f cs) = update_at i (fun c => g (f c)) cs.
Proof.
  revert i. induction cs as [|c cs IH]; intros [|i]; simpl; auto.
  rewrite IH. reflexivity.
Qed.

(** C8 (as the code has it).  [edit_contact] on the identifier of a contact
    of the book: the first contact with that identifier gets each field
    whose line is not empty once stripped, and keeps the others and its
    identifier; every other contact and [next_id] are unchanged; [modified]
    is set, whether or not a field changed. *)
Theorem edit_contact_spec (self : PhoneBook) (l_id l1 l2 l3 : string)
    (rest : list string) (n : Z) (i : nat) (c : Contact) :
  Str.isdigit (Str.strip l_id) = true ->
  Str.parse_int (Str.strip l_id) = Some n ->
  find_by_id (contacts self) n = Some i ->
  nth_error (contacts self) i = Some c ->
  exists self',
    edit_contact self (l_id :: l1 :: l2 :: l3 :: rest) = (Edited n, self', rest) /\
    nth_error (contacts self') i
      = Some (mkContact (id c) (keep_or (name c) l1) (keep_or (phone c) l2)
                        (keep_or (comment c) l3)) /\
    (forall j, j <> i -> nth_error (contacts self') j = nth_error (contacts self) j) /\
    List.length (contacts self') = List.length (contacts self) /\
    next_id self' = next_id self /\
    modified self' = true.
Proof.
  intros Hd Hp Hf Hc.
  unfold edit_contact. destruct (contacts self) as [|c0 cs] eqn:Ecs; [discriminate|].
  unfold run, bind, ask_contact, bind, input, get_self, ret.
  rewrite Hd, Hp. cbn [negb]. rewrite Ecs, Hf.
  unfold keep_or, assign, update_self.
  destruct (Str.is_empty (Str.strip l1)), (Str.is_empty (Str.strip l2)),
    (Str.is_empty (Str.strip l3));
    cbn [contacts next_id modified];
    (eexists; split; [reflexivity|]);
    cbn [contacts next_id modified];
    rewrite ?update_at_twice, ?nth_error_update_at_eq, ?length_update_at, ?Ecs, ?Hc;
    (repeat split;
     try (intros j Hj; rewrite ?nth_error_update_at_neq by exact Hj; rewrite ?Ecs;
          reflexivity));
    try (destruct c; reflexivity);
    try (rewrite Hc; destruct c; reflexivity);
    try (rewrite Ecs; reflexivity).
Qed.

(** ** Reading the entries of a file *)

Lemma py_strip_Ok (v : json) (s : string) :
  py_strip v = Ok s -> exists t, v = JStr t /\ s = Str.strip t.
Proof.
  destruct v; simpl; try discriminate. intros [= <-]. eauto.
Qed.

Lemma from_dict_Ok (e : json) (c : Contact) :
  from_dict e = Ok c -> required e = true /\ describes e c.
Proof.
  destruct e as [| | | | s | l | d]; simpl; try discriminate.
  - destruct (negb _ || negb _); discriminate.
  - destruct (negb _ || negb _); discriminate.
  - unfold has_key, get_default, Contact_init, describes.
    destruct (dict_get "name" d) as [vn|] eqn:En; [|discriminate].
    destruct (dict_get "phone" d) as [vp|] eqn:Ep; [|discriminate].
    simpl.
    destruct (py_strip vn) as [n|] eqn:Sn; [|discriminate].
    destruct (py_strip vp) as [p|] eqn:Sp; [|discriminate].
    apply py_strip_Ok in Sn, Sp.
    destruct Sn as [n' [-> ->]], Sp as [p' [-> ->]].
    destruct (dict_get "comment" d) as [vk|] eqn:Ek.
    + destruct (py_strip vk) as [k|] eqn:Sk; [|discriminate].
      apply py_strip_Ok in Sk. destruct Sk as [k' [-> ->]].
      intros [= <-]. split; [reflexivity|].
      exists d, n', p'. rewrite En, Ep, Ek. simpl. repeat split.
      right. exists k'. split; reflexivity.
    + simpl. intros [= <-]. split; [reflexivity|].
      exists d, n', p'. rewrite En, Ep, Ek. simpl. repeat split.
      left. split; reflexivity.
Qed.

Lemma from_dict_skip (e : json) :
  readable e = true -> required e = false -> from_dict e = Raise ValueError.
Proof.
  destruct e; simpl; try discriminate.
  intros _ H. rewrite <- negb_andb, H. reflexivity.
Qed.

Lemma from_dict_total (e : json) :
  readable e = true -> required e = true -> exists c, from_dict e = Ok c.
Proof.
  destruct e as [| | | | | | d]; simpl; try discriminate.
  intros H R. rewrite R in H. rewrite <- negb_andb, R. simpl in *.
  apply andb_prop in H. destruct H as [H H3]. apply andb_prop in H. destruct H as [H1 H2].
  unfold Contact_init.
  destruct (get_default "name" JNull d); try discriminate.
  destruct (get_default "phone" JNull d); try discriminate.
  destruct (get_default "comment" (JStr "") d); try discriminate.
  simpl. eauto.
Qed.

(** An exception of [from_dict] other than [ValueError] comes from an entry
    that is not readable; [KeyError] is never raised. *)
Lemma from_dict_Raise (e : json) (x : exn) :
  from_dict e = Raise x ->
  x <> KeyError /\ (x = ValueError -> required e = false /\ readable e = true) /\
  (x <> ValueError -> readable e = false).
Proof.
  destruct e as [| | | | s | l | d]; simpl.
  1-4: intros [= <-]; repeat split; congruence.
  1-2: destruct (negb _ || negb _); intros [= <-]; repeat split; congruence.
  rewrite <- negb_andb.
  destruct (has_key "name" d && has_key "phone" d) eqn:R; simpl.
  - unfold Contact_init.
    destruct (get_default "name" JNull d); simpl;
      try (intros [= <-]; repeat split; congruence).
    destruct (get_default "phone" JNull d); simpl;
      try (intros [= <-]; repeat split; congruence).
    destruct (get_default "comment" (JStr "") d); simpl;
      intros [= <-]; repeat split; congruence.
  - intros [= <-]. repeat split; congruence.
Qed.

Lemma from_dict_Ok_readable (e : json) (c : Contact) :
  from_dict e = Ok c -> readable e = true.
Proof.
  intros H. destruct (readable e) eqn:R; [reflexivity|].
  destruct (required e) eqn:Q.
  - destruct e as [| | | | | | d]; try discriminate.
    simpl in H, R, Q. rewrite <- negb_andb, Q in H. rewrite Q in R. simpl in H, R.
    unfold Contact_init in H.
    destruct (get_default "name" JNull d); try discriminate.
    destruct (get_default "phone" JNull d); try discriminate.
    destruct (get_default "comment" (JStr "") d); discriminate.
  - apply from_dict_Ok in H. destruct H as [H _]. congruence.
Qed.

Lemma warned_at_nil (i k : nat) : ~ warned_at i [] k.
Proof. intros [[|j] [e [_ [H _]]]]; discriminate. Qed.

Lemma warned_at_cons (i : nat) (e : json) (rest : list json) (k : nat) :
  warned_at i (e :: rest) k <->
  (k = S i /\ required e = false) \/ warned_at (S i) rest k.
Proof.
  unfold warned_at. split.
  - intros [[|j] [e' [Hk [Hn Hr]]]]; simpl in Hn.
    + injection Hn as <-. left. split; [lia | exact Hr].
    + right. exists j, e'. repeat split; [lia | exact Hn | exact Hr].
  - intros [[Hk Hr] | [j [e' [Hk [Hn Hr]]]]].
    + exists O, e. repeat split; [lia | exact Hr].
    + exists (S j), e'. repeat split; [lia | exact Hn | exact Hr].
Qed.

Lemma read_contacts_Ok (entries : list json) (i : nat)
    (cs : list Contact) (ws : list nat) :
  read_contacts i entries = (cs, ws, None) ->
  Forall (fun e => readable e = true) entries /\
  Forall2 describes (filter required entries) cs /\
  (forall k, In k ws <-> warned_at i entries k).
Proof.
  revert i cs ws. induction entries as [|e rest IH]; intros i cs ws; simpl.
  - intros [= <- <-]. repeat split; try constructor.
    + intros [].
    + intros H. exact (warned_at_nil _ _ H).
  - destruct (from_dict e) as [c|x] eqn:F.
    + destruct (read_contacts (S i) rest) as [[cs' ws'] x'] eqn:R.
      intros [= <- <- ->]. destruct (IH _ _ _ R) as [H1 [H2 H3]].
      pose proof (from_dict_Ok_readable _ _ F) as Hr.
      apply from_dict_Ok in F. destruct F as [Q D]. rewrite Q.
      repeat split.
      * constructor; assumption.
      * constructor; assumption.
      * intros H. apply warned_at_cons. right. apply H3, H.
      * intros H. apply warned_at_cons in H. destruct H as [[_ H] | H].
        -- congruence.
        -- apply H3, H.
    + pose proof (from_dict_Raise _ _ F) as [Hk [Hv Ho]].
      assert (Hskip : x = ValueError ->
                (let '(cs0, ws0, x0) := read_contacts (S i) rest in
                 (cs0, S i :: ws0, x0)) = (cs, ws, None) ->
                Forall (fun e0 => readable e0 = true) (e :: rest) /\
                Forall2 describes (if required e then e :: filter required rest
                                   else filter required rest) cs /\
                (forall k, In k ws <-> warned_at i (e :: rest) k)).
      { intros Hx. destruct (Hv Hx) as [Q Hr]. rewrite Q.
        destruct (read_contacts (S i) rest) as [[cs' ws'] x'] eqn:R.
        intros [= <- <- ->]. destruct (IH _ _ _ R) as [H1 [H2 H3]].
        repeat split.
        - constructor; assumption.
        - assumption.
        - intros [<- | H]; apply warned_at_cons; [left; split; trivial|].
          right. apply H3, H.
        - intros H. apply warned_at_cons in H. destruct H as [[-> _] | H].
          + left. reflexivity.
          + right. apply H3, H. }
      destruct x; try discriminate; try (exact (Hskip eq_refl)); congruence.
Qed.

Lemma read_contacts_total (entries : list json) (i : nat) :
  Forall (fun e => readable e = true) entries ->
  exists cs ws, read_contacts i entries = (cs, ws, None).
Proof.
  revert i. induction entries as [|e rest IH]; intros i H; simpl.
  - eauto.
  - inversion H as [|? ? He Hrest]; subst.
    destruct (IH (S i) Hrest) as [cs [ws R]]. rewrite R.
    destruct (required e) eqn:Q.
    + destruct (from_dict_total _ He Q) as [c ->]. eauto.
    + rewrite (from_dict_skip _ He Q). eauto.
Qed.


(** ** Identifiers *)

Lemma fold_max_ge (zs : list Z) (z : Z) :
  z <= fold_left Z.max zs z /\ Forall (fun y => y <= fold_left Z.max zs z) zs.
Proof.
  revert z. induction zs as [|y zs IH]; intros z; simpl.
  - split; [lia | constructor].
  - destruct (IH (Z.max z y)) as [H1 H2]. split; [lia|].
    constructor; [lia | exact H2].
Qed.

Lemma fold_max_in (zs : list Z) (z : Z) : In (fold_left Z.max zs z) (z :: zs).
Proof.
  revert z. induction zs as [|y zs IH]; intros z; simpl.
  - left. reflexivity.
  - specialize (IH (Z.max z y)).
    remember (fold_left Z.max zs (Z.max z y)) as m. clear Heqm.
    destruct IH as [H | H].
    + destruct (Z.max_spec z y) as [[_ E] | [_ E]]; rewrite E in H; auto.
    + right. right. exact H.
Qed.

Lemma ints_of_Some (vs : list json) (zs : list Z) :
  ints_of vs = Some zs -> map int_of vs = map Some zs.
Proof.
  revert zs. induction vs as [|v vs IH]; intros zs; simpl.
  - intros [= <-]. reflexivity.
  - destruct (int_of v) as [z|]; [|discriminate].
    destruct (ints_of vs) as [zs'|]; [|discriminate].
    intros [= <-]. simpl. rewrite (IH _ eq_refl). reflexivity.
Qed.

Lemma ints_of_total (vs : list json) :
  Forall (fun v => is_int v = true) vs -> exists zs, ints_of vs = Some zs.
Proof.
  induction 1 as [|v vs Hv _ [zs IH]]; simpl; [eauto|].
  unfold is_int in Hv. destruct (int_of v); [|discriminate].
  rewrite IH. eauto.
Qed.

Lemma int_value_int_of (v : json) (z : Z) : int_of v = Some z -> int_value v = Some z.
Proof. destruct v; simpl; congruence. Qed.

Lemma nums_of_ints (vs : list json) (zs : list Z) :
  ints_of vs = Some zs -> nums_of vs = Some (map NInt zs).
Proof.
  revert zs. induction vs as [|v vs IH]; intros zs; simpl.
  - intros [= <-]. reflexivity.
  - destruct (int_of v) as [z|] eqn:Ev; [|discriminate].
    destruct (ints_of vs) as [zs'|]; [|discriminate].
    intros [= <-]. rewrite (IH _ eq_refl).
    destruct v as [| [] | | | | |]; simpl in *; try discriminate;
      injection Ev as <-; reflexivity.
Qed.

(** On integers [max] is the greatest. *)
Lemma py_max_ints (zs : list Z) (z : Z) :
  py_max (NInt z) (map NInt zs) = NInt (fold_left Z.max zs z).
Proof.
  unfold py_max. revert z. induction zs as [|y zs IH]; intros z; simpl; [reflexivity|].
  destruct (Z.ltb_spec z y) as [H | H].
  - rewrite IH. do 2 f_equal. lia.
  - rewrite IH. do 2 f_equal. lia.
Qed.

Lemma max_plus_one_ints (ids : list json) (z : Z) (zs : list Z) :
  ints_of ids = Some (z :: zs) ->
  max_plus_one ids = Ok (NInt (fold_left Z.max zs z + 1)).
Proof.
  intros H. unfold max_plus_one. rewrite (nums_of_ints _ _ H). cbn [map].
  rewrite py_max_ints. reflexivity.
Qed.

Lemma max_plus_one_Ok (ids : list json) (r : num) :
  Forall (fun v => is_int v = true) ids ->
  max_plus_one ids = Ok r ->
  exists n, r = NInt n /\
    Forall (fun v => exists z, int_of v = Some z /\ z < n) ids /\
    In (Some (n - 1)) (map int_of ids).
Proof.
  intros Hi. destruct (ints_of_total _ Hi) as [[|z zs] E].
  - unfold max_plus_one. rewrite (nums_of_ints _ _ E). discriminate.
  - rewrite (max_plus_one_ints _ _ _ E). intros [= <-].
    exists (fold_left Z.max zs z + 1). split; [reflexivity|].
    apply ints_of_Some in E.
    pose proof (fold_max_ge zs z) as [H1 H2].
    pose proof (fold_max_in zs z) as H3.
    split.
    + apply Forall_forall. intros v Hv.
      apply (in_map int_of) in Hv. rewrite E in Hv.
      apply in_map_iff in Hv. destruct Hv as [y [Hy Hin]].
      exists y. split; [congruence|].
      destruct Hin as [<- | Hin]; [lia|].
      rewrite Forall_forall in H2. specialize (H2 _ Hin). lia.
    + rewrite E. replace (fold_left Z.max zs z + 1 - 1) with (fold_left Z.max zs z) by lia.
      apply in_map. exact H3.
Qed.

Lemma first_free_Ok (cs : list Contact) (r : num) :
  Forall (fun v => is_int v = true) (ids_with_values cs) ->
  first_free cs = Ok r ->
  exists n, r = NInt n /\ known_below n cs.
Proof.
  unfold first_free, ids_with_values, known_below. intros Hi H.
  destruct (filter _ (map id cs)) as [|v vs] eqn:F.
  - injection H as <-. exists 1. split; [reflexivity|].
    apply Forall_forall. intros c Hc. left.
    destruct (is_none (id c)) eqn:N; [destruct (id c); try discriminate; reflexivity|].
    assert (Hin : In (id c) (filter (fun v => negb (is_none v)) (map id cs))).
    { apply filter_In. split; [apply in_map, Hc | rewrite N; reflexivity]. }
    rewrite F in Hin. destruct Hin.
  - destruct (max_plus_one_Ok _ _ Hi H) as [n [-> [Hall _]]].
    exists n. split; [reflexivity|].
    apply Forall_forall. intros c Hc.
    destruct (is_none (id c)) eqn:N.
    + left. destruct (id c); try discriminate. reflexivity.
    + right.
      assert (Hin : In (id c) (filter (fun v => negb (is_none v)) (map id cs))).
      { apply filter_In. split; [apply in_map, Hc | rewrite N; reflexivity]. }
      rewrite F in Hin. rewrite Forall_forall in Hall.
      destruct (Hall _ Hin) as [z [Hz Hlt]]. exists z.
      split; [apply int_value_int_of, Hz | exact Hlt].
Qed.

Lemma known_below_weaken (n m : Z) (cs : list Contact) :
  n <= m -> known_below n cs -> known_below m cs.
Proof.
  intros Hnm H. unfold known_below in *. eapply Forall_impl; [|exact H].
  intros c [Hc | [z [Hz Hlt]]]; [left; exact Hc | right; exists z; split; [exact Hz | lia]].
Qed.


Lemma known_ids_lt (n z : Z) (cs : list Contact) :
  known_below n cs -> In (Some z) (map id_num (filter has_id cs)) -> z < n.
Proof.
  intros H Hin. apply in_map_iff in Hin. destruct Hin as [c [Hc Hin]].
  apply filter_In in Hin. destruct Hin as [Hin Hid].
  unfold known_below in H. rewrite Forall_forall in H.
  destruct (H _ Hin) as [E | [y [Hy Hlt]]].
  - unfold has_id in Hid. rewrite E in Hid. discriminate.
  - congruence.
Qed.

(** The second loop of [load_from_file], started above every identifier
    there is: afterwards every contact has an integer identifier below the
    new [next_id]; each identifier is one of the old ones or a new one, not
    below the start; and the identifiers are distinct if the old ones were. *)
Lemma assign_ids_spec (cs : list Contact) :
  forall (n : Z) (cs' : list Contact) (r : num) (a : bool),
    known_below n cs ->
    assign_ids (NInt n) cs = (cs', r, a) ->
    exists n', r = NInt n' /\
    n <= n' /\ ids_below n' cs' /\
    Forall (fun c' => exists z, id_num c' = Some z /\
              (In (Some z) (map id_num (filter has_id cs)) \/ n <= z)) cs' /\
    (NoDup (map id_num (filter has_id cs)) -> ids_distinct cs').
Proof.
  induction cs as [|c t IH]; intros n cs' r a K; simpl.
  - intros [= <- <- <-]. exists n. repeat split; try constructor. lia.
  - inversion K as [|? ? Kc Kt]; subst.
    assert (Hh : has_id c = negb (is_none (id c))) by reflexivity.
    rewrite !Hh. destruct (is_none (id c)) eqn:N; simpl.
    + destruct (assign_ids (NInt (n + 1)) t) as [[r0 m] b] eqn:E.
      intros [= <- <- <-].
      assert (Kt' : known_below (n + 1) t) by (apply (known_below_weaken n); [lia | exact Kt]).
      destruct (IH _ _ _ _ Kt' E) as [n' [-> [H1 [H2 [H3 H4]]]]].
      exists n'. repeat split.
      * lia.
      * constructor; [exists n; split; [reflexivity | lia] | exact H2].
      * constructor; [exists n; split; [reflexivity | right; lia]|].
        eapply Forall_impl; [|exact H3].
        intros c' [z [Hz [Hin | Hge]]]; exists z; (split; [exact Hz|]);
          [left; exact Hin | right; lia].
      * intros ND. unfold ids_distinct. simpl. constructor; [|apply H4, ND].
        intros Hin. apply in_map_iff in Hin. destruct Hin as [c' [Hc' Hin]].
        rewrite Forall_forall in H3. destruct (H3 _ Hin) as [z [Hz [Ho | Hge]]].
        -- pose proof (known_ids_lt _ _ _ Kt Ho) as Hlt.
           unfold id_num in Hc', Hz. simpl in Hc'. rewrite Hz in Hc'.
           injection Hc' as ->. lia.
        -- unfold id_num in Hc', Hz. simpl in Hc'. rewrite Hz in Hc'.
           injection Hc' as ->. lia.
    + destruct (assign_ids (NInt n) t) as [[r0 m] b] eqn:E.
      intros [= <- <- <-].
      destruct (IH _ _ _ _ Kt E) as [n' [-> [H1 [H2 [H3 H4]]]]].
      destruct Kc as [Kc | [z0 [Hz0 Hlt0]]]; [rewrite Kc in N; discriminate|].
      exists n'. repeat split.
      * exact H1.
      * constructor; [exists z0; split; [exact Hz0 | lia] | exact H2].
      * constructor; [exists z0; split; [exact Hz0 | left; left; exact Hz0]|].
        eapply Forall_impl; [|exact H3].
        intros c' [z [Hz [Hin | Hge]]]; exists z; (split; [exact Hz|]);
          [left; right; exact Hin | right; exact Hge].
      * intros ND. inversion ND as [|? ? Hnot ND']; subst.
        unfold ids_distinct. simpl. constructor; [|apply H4, ND'].
        intros Hin. apply in_map_iff in Hin. destruct Hin as [c' [Hc' Hin]].
        rewrite Forall_forall in H3. destruct (H3 _ Hin) as [z [Hz [Ho | Hge]]].
        -- apply Hnot. rewrite <- Hc', Hz. exact Ho.
        -- rewrite Hz0, Hz in Hc'. injection Hc' as ->. lia.
Qed.

Lemma iter_succ_int (k : nat) (n : Z) :
  Nat.iter k num_succ (NInt n) = NInt (n + Z.of_nat k).
Proof.
  induction k as [|k IH]; simpl Nat.iter.
  - f_equal. lia.
  - rewrite IH. simpl. f_equal. lia.
Qed.

(** The same loop, contact by contact, from any number: a contact with an
    identifier is left as it is; one without gets the start after as many
    additions of 1 as there are contacts without identifier before it;
    [next_id] ends at the start after as many additions as there are
    contacts without identifier, and the flag tells whether there was
    one. *)
Lemma assign_ids_nth (cs : list Contact) :
  forall (n : num) (cs' : list Contact) (n' : num) (a : bool),
    assign_ids n cs = (cs', n', a) ->
    n' = Nat.iter (count_none cs) num_succ n /\
    a = existsb (fun c => is_none (id c)) cs /\
    List.length cs' = List.length cs /\
    forall j c, nth_error cs j = Some c ->
      nth_error cs' j =
        Some (if is_none (id c)
              then set_id c (json_of_num
                               (Nat.iter (count_none (firstn j cs)) num_succ n))
              else c).
Proof.
  unfold count_none.
  induction cs as [|c t IH]; intros n cs' n' a; simpl.
  - intros [= <- <- <-]. repeat split. intros [|j] c; discriminate.
  - destruct (is_none (id c)) eqn:N.
    + destruct (assign_ids (num_succ n) t) as [[r m] b] eqn:E.
      intros [= <- <- <-]. destruct (IH _ _ _ _ E) as [H1 [H2 [H3 H4]]].
      repeat split.
      * rewrite H1. simpl List.length. rewrite Nat.iter_succ_r. reflexivity.
      * simpl. rewrite H3. reflexivity.
      * intros [|j] c0; simpl.
        -- intros [= <-]. rewrite N. reflexivity.
        -- intros Hj. rewrite (H4 _ _ Hj). rewrite N.
           destruct (is_none (id c0)); [|reflexivity].
           simpl List.length. rewrite Nat.iter_succ_r. reflexivity.
    + destruct (assign_ids n t) as [[r m] b] eqn:E.
      intros [= <- <- <-]. destruct (IH _ _ _ _ E) as [H1 [H2 [H3 H4]]].
      repeat split.
      * exact H1.
      * exact H2.
      * simpl. rewrite H3. reflexivity.
      * intros [|j] c0; simpl.
        -- intros [= <-]. rewrite N. reflexivity.
        -- intros Hj. rewrite (H4 _ _ Hj). rewrite N. reflexivity.
Qed.

(** ** load_from_file *)

Lemma load_run (self : PhoneBook) (data : json) (entries : list json)
    (cs0 : list Contact) (ws : list nat) (n : num)
    (cs : list Contact) (n' : num) (a : bool) :
  file_entries data = Ok entries ->
  read_contacts 0 entries = (cs0, ws, None) ->
  first_free cs0 = Ok n ->
  assign_ids n cs0 = (cs, n', a) ->
  load_from_file self (Json data)
    = mkLoad true ws (mkPhoneBook cs n' (if a then modified self else false)).
Proof.
  intros He Hr Hf Ha. destruct data; try discriminate.
  simpl in He. simpl. rewrite He, Hr. destruct cs0 as [|c0 cs0].
  - injection Hf as <-. injection Ha as <- <- <-. reflexivity.
  - rewrite Hf, Ha. reflexivity.
Qed.

Lemma load_ok_inv (self : PhoneBook) (data : json) :
  ok (load_from_file self (Json data)) = true ->
  exists entries cs0 ws n cs n' a,
    file_entries data = Ok entries /\
    read_contacts 0 entries = (cs0, ws, None) /\
    first_free cs0 = Ok n /\
    assign_ids n cs0 = (cs, n', a).
Proof.
  destruct data as [| | | | | |d]; try discriminate. simpl.
  destruct (py_iter _) as [entries|] eqn:He; [|discriminate].
  destruct (read_contacts 0 entries) as [[cs0 ws] [x|]] eqn:Hr; [discriminate|].
  destruct cs0 as [|c0 cs0].
  - intros _. exists entries, [], ws, (NInt 1), [], (NInt 1), false.
    repeat split; assumption.
  - destruct (first_free (c0 :: cs0)) as [n|] eqn:Hf; [|discriminate].
    destruct (assign_ids n (c0 :: cs0)) as [[cs n'] a] eqn:Ha.
    intros _. exists entries, (c0 :: cs0), ws, n, cs, n', a. repeat split; assumption.
Qed.

Lemma map_filter_comm {A B} (f : A -> B) (p : B -> bool) (l : list A) :
  map f (filter (fun x => p (f x)) l) = filter p (map f l).
Proof.
  induction l as [|x l IH]; simpl; [reflexivity|].
  destruct (p (f x)); simpl; rewrite IH; reflexivity.
Qed.

Lemma describes_ids (es : list json) (cs : list Contact) :
  Forall2 describes es cs -> map id cs = map entry_id es.
Proof.
  induction 1 as [|e c es cs D _ IH]; simpl; [reflexivity|].
  destruct D as [d [n [p [-> [_ [_ [_ [_ [_ Hid]]]]]]]]].
  rewrite IH, Hid. reflexivity.
Qed.

Lemma read_contacts_ids (entries : list json) (i : nat)
    (cs : list Contact) (ws : list nat) :
  read_contacts i entries = (cs, ws, None) ->
  ids_with_values cs = file_ids entries /\
  map id_num (filter has_id cs) = map int_value (file_ids entries).
Proof.
  intros H. apply read_contacts_Ok in H. destruct H as [_ [H _]].
  apply describes_ids in H. unfold ids_with_values, file_ids. rewrite <- H.
  split; [reflexivity|].
  unfold id_num, has_id.
  rewrite <- (map_filter_comm id (fun v => negb (is_none v))).
  rewrite map_map. reflexivity.
Qed.

Lemma int_value_ints (vs : list json) :
  Forall (fun v => is_int v = true) vs -> map int_value vs = map int_of vs.
Proof.
  induction 1 as [|v vs Hv _ IH]; simpl; [reflexivity|].
  rewrite IH. f_equal. unfold is_int in Hv.
  destruct (int_of v) as [z|] eqn:E; [|discriminate].
  apply int_value_int_of, E.
Qed.




(** With integers in the file every identifier after the second loop is an
    integer. *)
Lemma assign_ids_ints (cs : list Contact) :
  forall (n : Z) cs' n' a,
    assign_ids (NInt n) cs = (cs', n', a) ->
    Forall (fun v => is_int v = true) (ids_with_values cs) ->
    Forall (fun c => is_int (id c) = true) cs'.
Proof.
  unfold ids_with_values.
  induction cs as [|c t IH]; intros n cs' n' a; simpl.
  - intros [= <- <- <-] _. constructor.
  - destruct (is_none (id c)) eqn:N; simpl.
    + destruct (assign_ids (NInt (n + 1)) t) as [[r m] b] eqn:E. intros [= <- <- <-] H.
      constructor; [reflexivity | exact (IH _ _ _ _ E H)].
    + destruct (assign_ids (NInt n) t) as [[r m] b] eqn:E. intros [= <- <- <-] H.
      inversion H; subst. constructor; [assumption | eapply IH; eassumption].
Qed.

Lemma load_ints (self : PhoneBook) (data : json) (entries : list json) :
  file_entries data = Ok entries ->
  ok (load_from_file self (Json data)) = true ->
  Forall (fun v => is_int v = true) (file_ids entries) ->
  Forall (fun c => is_int (id c) = true)
         (contacts (book (load_from_file self (Json data)))).
Proof.
  intros He0 Hok Hi. destruct (load_ok_inv _ _ Hok)
    as [entries' [cs0 [ws [n [cs [n' [a [He [Hr [Hf Ha]]]]]]]]]].
  rewrite He0 in He. injection He as <-.
  rewrite (load_run _ _ _ _ _ _ _ _ _ He0 Hr Hf Ha). simpl.
  destruct (read_contacts_ids _ _ _ _ Hr) as [Hv _]. rewrite <- Hv in Hi.
  destruct (first_free_Ok _ _ Hi Hf) as [z [-> _]].
  exact (assign_ids_ints _ _ _ _ _ Ha Hi).
Qed.

(** ** The invariant and the commands *)

Section Keeps.
Context {P : PhoneBook -> Prop}.

Lemma keeps_ret {A} (a : A) : keeps P (ret a).
Proof. intros self inp H. exact H. Qed.

Lemma keeps_raise {A} (e : exn) : keeps P (@raise A e).
Proof. intros self inp H. exact H. Qed.

Lemma keeps_input : keeps P input.
Proof. intros self [|l inp] H; exact H. Qed.

Lemma keeps_get_self : keeps P get_self.
Proof. intros self inp H. exact H. Qed.

Lemma keeps_update_self (f : PhoneBook -> PhoneBook) :
  (forall s, P s -> P (f s)) -> keeps P (update_self f).
Proof. intros Hf self inp H. apply Hf, H. Qed.

Lemma keeps_bind {A B} (m : M A) (k : A -> M B) :
  keeps P m -> (forall a, keeps P (k a)) -> keeps P (bind m k).
Proof.
  intros Hm Hk self inp H. unfold bind.
  specialize (Hm self inp H). destruct (m self inp) as [a s' r | e s' r].
  - apply Hk, Hm.
  - exact Hm.
Qed.

Lemma keeps_run (body : M report) (self : PhoneBook) (inp : list string) :
  keeps P body -> P self -> P (snd (fst (run body self inp))).
Proof.
  intros Hb H. unfold run. specialize (Hb self inp H).
  destruct (body self inp); exact Hb.
Qed.
End Keeps.

Ltac keeps_step :=
  cbn beta iota;
  first
    [ apply keeps_ret | apply keeps_raise | apply keeps_input
    | apply keeps_get_self
    | apply keeps_bind; [|intros ?]
    | match goal with
      | |- keeps _ (if ?b then _ else _) => destruct b
      | |- keeps _ (match ?x with _ => _ end) => destruct x
      end ].








Lemma ask_contact_keeps (P : PhoneBook -> Prop) : keeps P ask_contact.
Proof. unfold ask_contact. repeat keeps_step. Qed.




(** ** The invariant of the store *)

Lemma ids_below_no_none (n : Z) (cs : list Contact) :
  ids_below n cs -> Forall (fun c => is_none (id c) = false) cs.
Proof.
  unfold ids_below. apply Forall_impl. intros c [z [Hz _]].
  unfold id_num in Hz. destruct (id c); try discriminate; reflexivity.
Qed.




(** Identifiers that are not integers are loaded as they are written, and
    the identifiers that are assigned follow them: after 1.5 comes 2.5. *)
Lemma load_half_ids :
  load_from_file PhoneBook_init
    (file_of [entry "Ann" "555" [("id", JFloat 1.5)]; entry "Bob" "777" []])
  = mkLoad true []
      (mkPhoneBook [mkContact (JFloat 1.5) "Ann" "555" "";
                    mkContact (JFloat 2.5) "Bob" "777" ""]
                   (NFloat 3.5) false).
Proof. vm_compute. reflexivity. Qed.

(** At 1e16 adding 1 to a float gives the same float: the identifier that is
    assigned is the one that was written, and [next_id] is not above it. *)
Lemma load_large_float_id :
  load_from_file PhoneBook_init
    (file_of [entry "Ann" "555" [("id", JFloat 1e16)]; entry "Bob" "777" []])
  = mkLoad true []
      (mkPhoneBook [mkContact (JFloat 1e16) "Ann" "555" "";
                    mkContact (JFloat 1e16) "Bob" "777" ""]
                   (NFloat 1e16) false).
Proof. vm_compute. reflexivity. Qed.

(** What [load_from_file] does with [modified] on a decoded file: the flag
    is cleared unless an identifier was assigned, and then it is left as it
    was. *)
Lemma load_modified (self : PhoneBook) (data : json) :
  ok (load_from_file self (Json data)) = true ->
  exists entries,
    file_entries data = Ok entries /\
    modified (book (load_from_file self (Json data)))
      = if existsb (fun e => is_none (entry_id e)) (filter required entries)
        then modified self else false.
Proof.
  intros Hok. destruct (load_ok_inv _ _ Hok)
    as [entries [cs0 [ws [n [cs [n' [a [He [Hr [Hf Ha]]]]]]]]]].
  exists entries. split; [exact He|].
  rewrite (load_run _ _ _ _ _ _ _ _ _ He Hr Hf Ha). simpl.
  destruct (assign_ids_nth _ _ _ _ _ Ha) as [_ [-> _]].
  apply read_contacts_Ok in Hr. destruct Hr as [_ [D _]].
  apply describes_ids in D.
  replace (existsb (fun c => is_none (id c)) cs0)
    with (existsb is_none (map id cs0)).
  - rewrite D. replace (existsb is_none (map entry_id (filter required entries)))
      with (existsb (fun e => is_none (entry_id e)) (filter required entries)).
    + reflexivity.
    + clear. induction (filter required entries); simpl; congruence.
  - clear. induction cs0; simpl; congruence.
Qed.

(** C2 (the code at the failing input).  A new book loads a file whose only
    entry has no identifier: the load succeeds, the contact gets identifier
    1, and [modified] is still false. *)
Theorem load_assigns_id_without_flag :
  load_from_file PhoneBook_init (file_of [entry "Ann" "555" []])
    = mkLoad true [] (mkPhoneBook [ann] 2 false).
Proof. reflexivity. Qed.

(** C3 (the code at the failing input).  A book with one contact and unsaved
    changes is loaded from a path where there is no file: the load succeeds
    and the book still has its contact and its flag. *)
Theorem load_missing_file_keeps_book :
  load_from_file ann_book NoFile = mkLoad true [] ann_book /\
  contacts ann_book = [ann] /\ modified ann_book = true.
Proof. repeat split. Qed.

(** ** Files that cannot be read *)

(** C4 (the code at the failing input).  A book with one contact loads a
    file that is decoded and whose second entry has a string as identifier:
    the load returns false, and the book has lost its contact and holds the
    contacts of the file, the first without identifier; [next_id] and
    [modified] are those of before the call. *)
Theorem load_fails_on_text_id :
  load_from_file ann_book
    (file_of [entry "Bob" "777" []; entry "Cid" "888" [("id", JStr "x")]])
  = mkLoad false []
      (mkPhoneBook [mkContact JNull "Bob" "777" ""; mkContact (JStr "x") "Cid" "888" ""]
                   2 true) /\
  contacts ann_book = [ann].
Proof. split; reflexivity. Qed.

(** ** The comment of an entry *)

(** C9 (as the code has it).  The comment of a contact read from the file is
    the stripped string under the key [comment], and the empty string when
    the key is absent; no other key is looked at for it, so two entries that
    differ only under the key [note] are read alike. *)
Theorem from_dict_comment (d d' : list (string * json)) (c : Contact) :
  from_dict (JDict d) = Ok c ->
  (forall k, k <> "note" -> dict_get k d' = dict_get k d) ->
  (dict_get "comment" d = None -> comment c = EmptyString) /\
  (forall s, dict_get "comment" d = Some (JStr s) -> comment c = Str.strip s) /\
  from_dict (JDict d') = Ok c.
Proof.
  intros H Hk. split; [|split].
  - intros Hn. apply from_dict_Ok in H.
    destruct H as [_ [d0 [n [p [E [_ [_ [_ [_ [[[_ Hc] | [s [Hs _]]] _]]]]]]]]]].
    + exact Hc.
    + injection E as <-. congruence.
  - intros s Hs. apply from_dict_Ok in H.
    destruct H as [_ [d0 [n [p [E [_ [_ [_ [_ [[[Hn _] | [s' [Hs' Hc]]] _]]]]]]]]]];
      injection E as <-; congruence.
  - rewrite <- H. unfold from_dict, has_key, get_default.
    rewrite !Hk by discriminate. reflexivity.
Qed.

Lemma from_dict_comment_witness :
  from_dict (entry "Ann" "555" [("note", JStr "hi"); ("comment", JStr " home ")])
    = Ok (mkContact JNull "Ann" "555" "home").
Proof.
  refine (proj2 (proj2 (from_dict_comment
    [("name", JStr "Ann"); ("phone", JStr "555"); ("comment", JStr " home ")]
    [("name", JStr "Ann"); ("phone", JStr "555"); ("note", JStr "hi");
     ("comment", JStr " home ")]
    (mkContact JNull "Ann" "555" "home") eq_refl _))).
  intros k Hk. simpl.
  destruct (String.eqb k "name"); [reflexivity|].
  destruct (String.eqb k "phone"); [reflexivity|].
  destruct (String.eqb k "note") eqn:E; [|reflexivity].
  apply String.eqb_eq in E. contradiction.
Defined.

(** An entry whose note is under the key [note] is loaded with an empty
    comment. *)
Lemma load_ignores_note_key :
  load_from_file PhoneBook_init (file_of [entry "Ann" "555" [("note", JStr "hi")]])
    = mkLoad true [] (mkPhoneBook [ann] 2 false) /\
  comment ann <> "hi".
Proof. split; [reflexivity | discriminate]. Qed.

(** ** Entries that are skipped *)

Lemma assign_ids_Forall2 (cs : list Contact) :
  forall n cs' n' a,
    assign_ids n cs = (cs', n', a) -> Forall2 assigned_from cs cs'.
Proof.
  induction cs as [|c t IH]; intros n cs' n' a; simpl.
  - intros [= <- <- <-]. constructor.
  - destruct (is_none (id c)) eqn:N.
    + destruct (assign_ids (num_succ n) t) as [[r m] b] eqn:E. intros [= <- <- <-].
      constructor; [|eapply IH, E].
      unfold assigned_from. rewrite N. simpl. repeat split. eauto.
    + destruct (assign_ids n t) as [[r m] b] eqn:E. intros [= <- <- <-].
      constructor; [|eapply IH, E].
      unfold assigned_from. rewrite N. repeat split.
Qed.

Lemma Forall2_compose {A B C} (R : A -> B -> Prop) (S : B -> C -> Prop)
    (T : A -> C -> Prop) (l1 : list A) (l2 : list B) (l3 : list C) :
  (forall a b c, R a b -> S b c -> T a c) ->
  Forall2 R l1 l2 -> Forall2 S l2 l3 -> Forall2 T l1 l3.
Proof.
  intros H H1. revert l3. induction H1 as [|a b l1 l2 Hab _ IH]; intros l3 H2.
  - inversion H2. constructor.
  - inversion H2 as [|? c ? l3' Hbc H2']; subst.
    constructor; [eapply H; eassumption | apply IH, H2'].
Qed.

Lemma well_formed_readable (entries : list json) :
  forallb well_formed entries = true -> Forall (fun e => readable e = true) entries.
Proof.
  rewrite forallb_forall, Forall_forall. intros H e He.
  specialize (H e He). unfold well_formed in H.
  apply andb_prop in H. apply H.
Qed.

Lemma well_formed_ids (entries : list json) :
  forallb well_formed entries = true ->
  Forall (fun v => is_int v = true) (file_ids entries).
Proof.
  rewrite forallb_forall, Forall_forall. intros H v Hv.
  unfold file_ids in Hv. apply filter_In in Hv. destruct Hv as [Hv Hn].
  apply in_map_iff in Hv. destruct Hv as [e [<- He]].
  apply filter_In in He. destruct He as [He Hq].
  specialize (H e He). unfold well_formed in H. rewrite Hq in H.
  apply andb_prop in H. destruct H as [_ H]. simpl in H.
  destruct (is_none (entry_id e)); [discriminate | exact H].
Qed.

Lemma is_int_is_num (v : json) : is_int v = true -> is_num v = true.
Proof. destruct v as [| [] | | | | |]; simpl; intros H; try reflexivity; discriminate. Qed.

Lemma nums_of_total (ids : list json) :
  Forall (fun v => is_num v = true) ids ->
  exists xs, nums_of ids = Some xs /\ List.length xs = List.length ids.
Proof.
  induction 1 as [|v vs Hv _ [xs [IH L]]]; simpl; [exists []; split; reflexivity|].
  unfold is_num in Hv. destruct (num_of v) as [x|]; [|discriminate].
  rewrite IH. exists (x :: xs). split; [reflexivity | simpl; congruence].
Qed.

Lemma nums_of_Some (ids : list json) (xs : list num) :
  nums_of ids = Some xs -> Forall (fun v => is_num v = true) ids.
Proof.
  revert xs. induction ids as [|v vs IH]; intros xs; simpl; [constructor|].
  destruct (num_of v) as [x|] eqn:E; [|discriminate].
  destruct (nums_of vs) as [ys|]; [|discriminate].
  intros _. constructor; [unfold is_num; rewrite E; reflexivity | eapply IH; reflexivity].
Qed.

Lemma max_plus_one_total (ids : list json) :
  ids <> [] -> Forall (fun v => is_num v = true) ids ->
  exists n, max_plus_one ids = Ok n.
Proof.
  intros Hne H. destruct (nums_of_total _ H) as [xs [Hx L]].
  unfold max_plus_one. rewrite Hx. destruct xs as [|x xs]; [|eauto].
  destruct ids; [congruence | discriminate].
Qed.

Lemma first_free_total (cs : list Contact) :
  Forall (fun v => is_num v = true) (ids_with_values cs) ->
  exists n, first_free cs = Ok n.
Proof.
  unfold first_free. intros H. destruct (ids_with_values cs) as [|v vs] eqn:E; [eauto|].
  apply max_plus_one_total; [discriminate | exact H].
Qed.

(** With integers in the file the identifiers that are assigned are
    integers. *)
Lemma assign_ids_int (cs : list Contact) :
  forall (n : Z) cs' n' a,
    assign_ids (NInt n) cs = (cs', n', a) ->
    Forall2 (fun c c' => is_none (id c) = true -> exists z, id c' = JInt z) cs cs'.
Proof.
  induction cs as [|c t IH]; intros n cs' n' a; simpl.
  - intros [= <- <- <-]. constructor.
  - destruct (is_none (id c)) eqn:N.
    + destruct (assign_ids (NInt (n + 1)) t) as [[r m] b] eqn:E. intros [= <- <- <-].
      constructor; [|eapply IH, E]. intros _. exists n. reflexivity.
    + destruct (assign_ids (NInt n) t) as [[r m] b] eqn:E. intros [= <- <- <-].
      constructor; [|eapply IH, E]. intros H. rewrite N in H. discriminate.
Qed.

(** C5.  In a file that was decoded and whose contacts are a list: if the
    entries are well formed the load succeeds; and whenever the load
    succeeds, each entry without the key [name] or without the key [phone]
    was skipped with a warning that gives its number, and the book holds
    one contact for each of the other entries, in the order of the file;
    the identifiers given to the entries without one are integers when
    those written in the file are. *)
Theorem load_skips_entries (self : PhoneBook) (d : list (string * json))
    (entries : list json) :
  dict_get "contacts" d = Some (JList entries) ->
  (forallb well_formed entries = true ->
   ok (load_from_file self (Json (JDict d))) = true) /\
  (ok (load_from_file self (Json (JDict d))) = true ->
   (forall k, In k (skipped (load_from_file self (Json (JDict d))))
              <-> warned_at 0 entries k) /\
   Forall2 loaded_from (filter required entries)
           (contacts (book (load_from_file self (Json (JDict d))))) /\
   (Forall (fun v => is_int v = true) (file_ids entries) ->
    Forall2 assigned_int (filter required entries)
            (contacts (book (load_from_file self (Json (JDict d))))))).
Proof.
  intros Hd.
  assert (He : file_entries (JDict d) = Ok entries).
  { simpl. unfold get_default. rewrite Hd. reflexivity. }
  split.
  - intros Hwf.
    destruct (read_contacts_total entries 0 (well_formed_readable _ Hwf)) as [cs0 [ws Hr]].
    destruct (first_free_total cs0) as [n Hf].
    { destruct (read_contacts_ids _ _ _ _ Hr) as [-> _].
      eapply Forall_impl; [|apply well_formed_ids, Hwf].
      intros v. apply is_int_is_num. }
    destruct (assign_ids n cs0) as [[cs n'] a] eqn:Ha.
    rewrite (load_run _ _ _ _ _ _ _ _ _ He Hr Hf Ha). reflexivity.
  - intros Hok. destruct (load_ok_inv _ _ Hok)
      as [entries' [cs0 [ws [n [cs [n' [a [He' [Hr [Hf Ha]]]]]]]]]].
    rewrite He in He'. injection He' as <-.
    rewrite (load_run _ _ _ _ _ _ _ _ _ He Hr Hf Ha). simpl.
    pose proof (read_contacts_Ok _ _ _ _ Hr) as [_ [D W]].
    split; [exact W|]. split.
    + apply (Forall2_compose describes assigned_from loaded_from _ cs0 _);
        [| exact D | exact (assign_ids_Forall2 _ _ _ _ _ Ha)].
      intros e c0 c Hd0 [H1 [H2 [H3 H4]]]. exists c0. repeat split; assumption.
    + intros Hi. destruct (read_contacts_ids _ _ _ _ Hr) as [Hv _].
      rewrite <- Hv in Hi. destruct (first_free_Ok _ _ Hi Hf) as [z [-> _]].
      apply (Forall2_compose describes
               (fun c c' => is_none (id c) = true -> exists z, id c' = JInt z)
               assigned_int _ cs0 _);
        [| exact D | exact (assign_ids_int _ _ _ _ _ Ha)].
      intros e c0 c Hd0 Hc Hn. apply Hc.
      destruct Hd0 as [d0 [n0 [p0 [-> [_ [_ [_ [_ [_ Hid]]]]]]]]].
      rewrite Hid. exact Hn.
Qed.

Lemma load_skips_entries_witness :
  ok (load_from_file ann_book (file_of sample_entries)) = true /\
  (forall k, In k (skipped (load_from_file ann_book (file_of sample_entries)))
             <-> warned_at 0 sample_entries k) /\
  Forall2 loaded_from (filter required sample_entries)
          (contacts (book (load_from_file ann_book (file_of sample_entries)))) /\
  Forall2 assigned_int (filter required sample_entries)
          (contacts (book (load_from_file ann_book (file_of sample_entries)))).
Proof.
  destruct (load_skips_entries ann_book [("contacts", JList sample_entries)]
              sample_entries eq_refl) as [H1 H2].
  split; [apply H1; reflexivity|].
  destruct (H2 (H1 eq_refl)) as [W [L A]].
  split; [exact W|]. split; [exact L|].
  apply A. vm_compute. repeat constructor.
Defined.

Example load_sample_entries :
  load_from_file ann_book (file_of sample_entries)
  = mkLoad true [3%nat]
      (mkPhoneBook [mkContact (JInt 6) "Ann" "555" "";
                    mkContact (JInt 5) "Bob" "777" "";
                    mkContact (JInt 7) "Dan" "999" "home"] 8 true).
Proof. reflexivity. Qed.

(** ** Saving and loading again *)

Lemma describes_stripped (e : json) (c : Contact) : describes e c -> stripped c.
Proof.
  intros [d [n [p [_ [_ [Hn [_ [Hp [[[_ Hc] | [s [_ Hc]]] _]]]]]]]]];
    unfold stripped; rewrite Hn, Hp, Hc, ?StrFacts.strip_idem; repeat split.
Qed.

Lemma assigned_from_stripped (c c' : Contact) :
  assigned_from c c' -> stripped c -> stripped c'.
Proof.
  intros [H1 [H2 [H3 _]]]. unfold stripped. rewrite H1, H2, H3. exact (fun H => H).
Qed.

Lemma loaded_stripped (self : PhoneBook) (data : json) :
  ok (load_from_file self (Json data)) = true ->
  Forall stripped (contacts (book (load_from_file self (Json data)))).
Proof.
  intros Hok. destruct (load_ok_inv _ _ Hok)
    as [entries [cs0 [ws [n [cs [n' [a [He [Hr [Hf Ha]]]]]]]]]].
  rewrite (load_run _ _ _ _ _ _ _ _ _ He Hr Hf Ha). simpl.
  apply read_contacts_Ok in Hr. destruct Hr as [_ [D _]].
  pose proof (assign_ids_Forall2 _ _ _ _ _ Ha) as F.
  assert (S0 : Forall stripped cs0).
  { clear - D. induction D; constructor; [eapply describes_stripped; eassumption | assumption]. }
  clear - F S0. induction F as [|c c' cs0 cs Hc _ IH]; [constructor|].
  inversion S0; subst. constructor; [eapply assigned_from_stripped; eassumption | auto].
Qed.

(** A contact whose fields are stripped is read back from what [to_dict]
    writes. *)
Lemma from_dict_to_dict (c : Contact) : stripped c -> from_dict (to_dict c) = Ok c.
Proof.
  intros [H1 [H2 H3]]. destruct c as [i n p k]. simpl in *.
  unfold Contact_init. simpl. rewrite H1, H2, H3. reflexivity.
Qed.

Lemma read_contacts_to_dict (cs : list Contact) (i : nat) :
  Forall stripped cs -> read_contacts i (map to_dict cs) = (cs, [], None).
Proof.
  intros H. revert i. induction H as [|c cs Hc _ IH]; intros i; [reflexivity|].
  cbn [map read_contacts]. rewrite (from_dict_to_dict c Hc), IH. reflexivity.
Qed.

Lemma assign_ids_fixed (cs : list Contact) (n : num) :
  Forall (fun c => is_none (id c) = false) cs -> assign_ids n cs = (cs, n, false).
Proof.
  induction 1 as [|c cs Hc _ IH]; simpl; [reflexivity|].
  rewrite Hc, IH. reflexivity.
Qed.

Lemma ids_with_values_all (cs : list Contact) :
  Forall (fun c => is_none (id c) = false) cs -> ids_with_values cs = map id cs.
Proof.
  unfold ids_with_values. induction 1 as [|c cs Hc _ IH]; simpl; [reflexivity|].
  rewrite Hc. simpl. rewrite IH. reflexivity.
Qed.

(** When the second loop assigned an identifier, the last one assigned is
    the new [next_id] less one. *)
Lemma assign_ids_top (cs : list Contact) :
  forall (n : Z) cs' (n' : Z) a,
    assign_ids (NInt n) cs = (cs', NInt n', a) -> n < n' ->
    In (Some (n' - 1)) (map id_num cs').
Proof.
  induction cs as [|c t IH]; intros n cs' n' a; simpl.
  - intros [= <- <- <-]. lia.
  - destruct (is_none (id c)) eqn:N.
    + destruct (assign_ids (NInt (n + 1)) t) as [[r m] b] eqn:E. intros [= <- -> <-] Hlt.
      destruct (assign_ids_nth _ _ _ _ _ E) as [Hm _].
      rewrite iter_succ_int in Hm. injection Hm as Hm.
      destruct (Z.eq_dec n' (n + 1)) as [-> | Hne].
      * left. unfold id_num. simpl. f_equal. lia.
      * right. apply (IH _ _ _ _ E). lia.
    + destruct (assign_ids (NInt n) t) as [[r m] b] eqn:E. intros [= <- -> <-] Hlt.
      right. apply (IH _ _ _ _ E Hlt).
Qed.

(** Every identifier after the second loop is a number. *)
Lemma assign_ids_nums (cs : list Contact) :
  forall (n : num) cs' n' a,
    assign_ids n cs = (cs', n', a) ->
    Forall (fun v => is_num v = true) (ids_with_values cs) ->
    Forall (fun c => is_num (id c) = true) cs'.
Proof.
  unfold ids_with_values.
  induction cs as [|c t IH]; intros n cs' n' a; simpl.
  - intros [= <- <- <-] _. constructor.
  - destruct (is_none (id c)) eqn:N; simpl.
    + destruct (assign_ids (num_succ n) t) as [[r m] b] eqn:E. intros [= <- <- <-] H.
      constructor; [destruct n; reflexivity | exact (IH _ _ _ _ E H)].
    + destruct (assign_ids n t) as [[r m] b] eqn:E. intros [= <- <- <-] H.
      inversion H; subst. constructor; [assumption | eapply IH; eassumption].
Qed.

Lemma first_free_nums (cs : list Contact) (n : num) :
  first_free cs = Ok n -> Forall (fun v => is_num v = true) (ids_with_values cs).
Proof.
  unfold first_free, max_plus_one.
  destruct (ids_with_values cs) as [|v vs]; [constructor|].
  destruct (nums_of (v :: vs)) as [xs|] eqn:E; [|discriminate].
  intros _. exact (nums_of_Some _ _ E).
Qed.

Lemma is_num_not_none (cs : list Contact) :
  Forall (fun c => is_num (id c) = true) cs ->
  Forall (fun c => is_none (id c) = false) cs.
Proof.
  apply Forall_impl. intros c H. destruct (id c); try reflexivity; discriminate.
Qed.

(** The contacts of a load that succeeded are read back from the file that
    holds them, whatever the book that loads it. *)
Lemma load_book_file (other : PhoneBook) (cs : list Contact) (now : string) :
  Forall stripped cs ->
  Forall (fun c => is_num (id c) = true) cs ->
  exists n, load_from_file other (book_file cs now)
            = mkLoad true [] (mkPhoneBook cs n false) /\
            first_free cs = Ok n.
Proof.
  intros Hs Hn. pose proof (is_num_not_none _ Hn) as Hnn.
  destruct (first_free_total cs) as [n Hf].
  { rewrite (ids_with_values_all _ Hnn). apply Forall_map. exact Hn. }
  exists n. split; [|exact Hf].
  apply (load_run other _ (map to_dict cs) cs [] n cs n false).
  - reflexivity.
  - apply read_contacts_to_dict, Hs.
  - exact Hf.
  - apply assign_ids_fixed, Hnn.
Qed.

(** After a load that succeeds on integers and leaves contacts, [next_id]
    is one more than the greatest identifier: it is what [first_free]
    computes on the contacts loaded. *)
Lemma first_free_loaded (cs0 cs : list Contact) (n n' : num) (a : bool) :
  Forall (fun v => is_int v = true) (ids_with_values cs0) ->
  first_free cs0 = Ok n -> assign_ids n cs0 = (cs, n', a) -> cs <> [] ->
  first_free cs = Ok n'.
Proof.
  intros Hi Hf Ha Hne.
  destruct (first_free_Ok _ _ Hi Hf) as [z [-> K]].
  destruct (assign_ids_spec _ _ _ _ _ K Ha) as [z' [-> [Hle [Hb _]]]].
  pose proof (ids_below_no_none _ _ Hb) as Hnn.
  pose proof (assign_ids_ints _ _ _ _ _ Ha Hi) as Hint.
  assert (Hint' : Forall (fun v => is_int v = true) (map id cs)) by (apply Forall_map, Hint).
  assert (Htop : In (Some (z' - 1)) (map id_num cs)).
  { destruct (Z.eq_dec z z') as [<- | Hlt].
    - destruct (assign_ids_nth _ _ _ _ _ Ha) as [Hc [_ [Hlen _]]].
      rewrite iter_succ_int in Hc. injection Hc as Hc.
      assert (Hz : count_none cs0 = O) by lia.
      assert (Hnn0 : Forall (fun c => is_none (id c) = false) cs0).
      { clear - Hz. unfold count_none in Hz. induction cs0 as [|c t IH]; [constructor|].
        simpl in Hz. destruct (is_none (id c)) eqn:N; [discriminate|].
        constructor; [exact N | apply IH, Hz]. }
      rewrite (assign_ids_fixed _ _ Hnn0) in Ha. injection Ha as <-.
      unfold first_free in Hf. rewrite (ids_with_values_all _ Hnn0) in Hf, Hi.
      destruct cs0 as [|c0 t]; [congruence|]. cbn [map] in Hf.
      rewrite <- (map_cons id c0 t) in Hf.
      destruct (max_plus_one_Ok _ _ Hi Hf) as [m [Em [_ Hin]]].
      injection Em as <-.
      unfold id_num. rewrite <- map_map. rewrite (int_value_ints _ Hi). exact Hin.
    - apply (assign_ids_top _ _ _ _ _ Ha). lia. }
  unfold first_free. rewrite (ids_with_values_all _ Hnn).
  destruct cs as [|c t]; [congruence|]. cbn [map].
  rewrite <- (map_cons id c t).
  destruct (max_plus_one_total (map id (c :: t))) as [m Hm]; [discriminate| |].
  - eapply Forall_impl; [|exact Hint']. intros v. apply is_int_is_num.
  - rewrite Hm. f_equal.
    destruct (max_plus_one_Ok _ _ Hint' Hm) as [k [-> [Hall Hin]]].
    rewrite <- (int_value_ints _ Hint') in Hin.
    rewrite map_map in Hin. fold id_num in Hin.
    apply in_map_iff in Hin. destruct Hin as [c1 [Hc1 Hin1]].
    apply in_map_iff in Htop. destruct Htop as [c2 [Hc2 Hin2]].
    unfold ids_below in Hb. rewrite Forall_forall in Hb.
    destruct (Hb _ Hin1) as [z1 [Hz1 Hlt1]].
    rewrite Forall_map, Forall_forall in Hall.
    destruct (Hall _ Hin2) as [z2 [Hz2 Hlt2]].
    apply int_value_int_of in Hz2.
    unfold id_num in *. rewrite Hc1 in Hz1. rewrite Hc2 in Hz2.
    injection Hz1 as <-. injection Hz2 as <-. f_equal. lia.
Qed.

Lemma Forall2_nth_error_l {A B} (R : A -> B -> Prop) (l : list A) (l' : list B)
    (j : nat) (x : A) :
  Forall2 R l l' -> nth_error l j = Some x ->
  exists y, nth_error l' j = Some y /\ R x y.
Proof.
  intros H. revert j. induction H as [|a b l l' Hab _ IH]; intros [|j]; simpl;
    try discriminate.
  - intros [= <-]. eauto.
  - apply IH.
Qed.

Lemma count_none_firstn (es : list json) (cs : list Contact) (j : nat) :
  map id cs = map entry_id es ->
  count_none (firstn j cs) = missing_before j es.
Proof.
  unfold count_none, missing_before. revert es j.
  induction cs as [|c cs IH]; intros [|e es] [|j]; simpl; try discriminate; try reflexivity.
  intros [= Hc Hcs]. rewrite Hc.
  destruct (is_none (entry_id e)); simpl; rewrite (IH _ _ Hcs); reflexivity.
Qed.

Lemma first_free_base_num (cs : list Contact) (n : num) :
  first_free cs = Ok n -> n = base_num (ids_with_values cs).
Proof.
  unfold first_free, base_num.
  destruct (ids_with_values cs) as [|v vs]; [intros [= <-]; reflexivity|].
  intros ->. reflexivity.
Qed.

Lemma first_free_base (cs : list Contact) (n : num) :
  Forall (fun v => is_int v = true) (ids_with_values cs) ->
  first_free cs = Ok n -> n = NInt (base_id (ids_with_values cs)).
Proof.
  unfold first_free, base_id. intros Hi.
  destruct (ids_with_values cs) as [|v vs]; [intros [= <-]; reflexivity|].
  destruct (ints_of_total _ Hi) as [[|z zs] E].
  - apply ints_of_Some in E. discriminate.
  - rewrite (max_plus_one_ints _ _ _ E), E. intros [= <-]. reflexivity.
Qed.

(** C10.  After a load that succeeds on a decoded file, saving the book
    writes the file that holds its contacts, and any book that loads this
    file has the same contacts, in the same order and with the same
    identifiers, names, phones and comments, and no warning; when the
    identifiers written in the first file are integers it has the same
    [next_id] too.  The identifiers of the first load are those of the
    file; an entry without one has the first free identifier of the file
    after as many additions of 1 as there are such entries before it. *)
Theorem load_save_load (self other : PhoneBook) (data : json)
    (entries : list json) (disk : file) (now : string) :
  file_entries data = Ok entries ->
  ok (load_from_file self (Json data)) = true ->
  let s1 := book (load_from_file self (Json data)) in
  save_to_file s1 disk WriteOk now
    = (true, mkPhoneBook (contacts s1) (next_id s1) false,
       book_file (contacts s1) now) /\
  (exists n,
     load_from_file other (book_file (contacts s1) now)
       = mkLoad true [] (mkPhoneBook (contacts s1) n false) /\
     (Forall (fun v => is_int v = true) (file_ids entries) -> n = next_id s1)) /\
  (forall j e, nth_error (filter required entries) j = Some e ->
     exists c, nth_error (contacts s1) j = Some c /\
       id c = (if is_none (entry_id e)
               then json_of_num
                      (Nat.iter (missing_before j (filter required entries))
                                num_succ (base_num (file_ids entries)))
               else entry_id e) /\
       (Forall (fun v => is_int v = true) (file_ids entries) ->
        is_none (entry_id e) = true ->
        id c = JInt (base_id (file_ids entries)
                     + Z.of_nat (missing_before j (filter required entries))))).
Proof.
  intros He0 Hok s1.
  pose proof (loaded_stripped _ _ Hok) as Hs. fold s1 in Hs.
  destruct (load_ok_inv _ _ Hok)
    as [entries' [cs0 [ws [n [cs [n' [a [He [Hr [Hf Ha]]]]]]]]]].
  rewrite He0 in He. injection He as <-.
  assert (E1 : s1 = mkPhoneBook cs n' (if a then modified self else false)).
  { unfold s1. rewrite (load_run _ _ _ _ _ _ _ _ _ He0 Hr Hf Ha). reflexivity. }
  rewrite E1 in *. cbn [contacts next_id] in *.
  pose proof (assign_ids_nums _ _ _ _ _ Ha (first_free_nums _ _ Hf)) as Hnum.
  destruct (read_contacts_ids _ _ _ _ Hr) as [Hv _].
  split; [reflexivity|]. split.
  - destruct (load_book_file other cs now Hs Hnum) as [m [Hl Hm]].
    exists m. split; [exact Hl|].
    intros Hi. rewrite <- Hv in Hi.
    destruct cs as [|c t] eqn:Ecs.
    + destruct cs0 as [|c0 t0].
      * injection Ha as <- _. injection Hf as <-. injection Hm as <-. reflexivity.
      * apply assign_ids_Forall2 in Ha. inversion Ha.
    + assert (Hf' : first_free (c :: t) = Ok n').
      { apply (first_free_loaded cs0 _ n n' a Hi Hf Ha). discriminate. }
      congruence.
  - intros j e Hj.
    pose proof (read_contacts_Ok _ _ _ _ Hr) as [_ [D _]].
    destruct (Forall2_nth_error_l _ _ _ _ _ D Hj) as [c0 [Hc0 De]].
    destruct (assign_ids_nth _ _ _ _ _ Ha) as [_ [_ [_ Hnth]]].
    specialize (Hnth _ _ Hc0).
    assert (Hid : id c0 = entry_id e).
    { destruct De as [d [n0 [p0 [-> [_ [_ [_ [_ [_ Hid]]]]]]]]]. exact Hid. }
    eexists. split; [exact Hnth|].
    rewrite Hid.
    rewrite (count_none_firstn (filter required entries) cs0 j (describes_ids _ _ D)).
    split.
    + destruct (is_none (entry_id e)); [|exact Hid].
      simpl. rewrite (first_free_base_num _ _ Hf), Hv. reflexivity.
    + intros Hi -> . simpl. rewrite <- Hv in Hi.
      rewrite (first_free_base _ _ Hi Hf), Hv, iter_succ_int. reflexivity.
Qed.

Lemma load_save_load_witness :
  load_from_file PhoneBook_init
    (book_file (contacts (book (load_from_file ann_book (file_of sample_entries))))
               "2024-01-01T00:00:00")
  = mkLoad true []
      (mkPhoneBook [mkContact (JInt 6) "Ann" "555" "";
                    mkContact (JInt 5) "Bob" "777" "";
                    mkContact (JInt 7) "Dan" "999" "home"] 8 false).
Proof.
  destruct (load_save_load ann_book PhoneBook_init
              (JDict [("contacts", JList sample_entries)]) sample_entries
              NoFile "2024-01-01T00:00:00" eq_refl eq_refl) as [_ [[n [Hl Hn]] _]].
  unfold file_of. rewrite Hl. rewrite Hn; [reflexivity|].
  vm_compute. repeat constructor.
Defined.

(** *** Books built by the commands *)

Lemma tidy_nums (self : PhoneBook) :
  tidy self -> Forall (fun c => is_num (id c) = true) (contacts self).
Proof.
  intros [_ Hi]. eapply Forall_impl; [|exact Hi]. intros c. apply is_int_is_num.
Qed.

(** Saving any tidy book and loading the file written, into any book, gives
    its contacts back; [next_id] is computed anew from them. *)
Lemma save_load_tidy (self other : PhoneBook) (disk : file) (now : string) :
  tidy self ->
  exists n,
    save_to_file self disk WriteOk now
      = (true, mkPhoneBook (contacts self) (next_id self) false,
         book_file (contacts self) now) /\
    load_from_file other (book_file (contacts self) now)
      = mkLoad true [] (mkPhoneBook (contacts self) n false).
Proof.
  intros Ht.
  destruct (load_book_file other (contacts self) now (proj1 Ht) (tidy_nums _ Ht))
    as [n [Hl _]].
  exists n. split; [reflexivity | exact Hl].
Qed.

Lemma Forall_update_at (P : Contact -> Prop) (i : nat) (f : Contact -> Contact)
    (cs : list Contact) :
  (forall c, P c -> P (f c)) -> Forall P cs -> Forall P (update_at i f cs).
Proof.
  intros Hf H. revert i. induction H as [|c cs Hc H IH]; intros [|i]; simpl;
    constructor; auto.
Qed.

Lemma Forall_remove_at (P : Contact -> Prop) (i : nat) (cs : list Contact) :
  Forall P cs -> Forall P (remove_at i cs).
Proof.
  intros H. revert i. induction H as [|c cs Hc H IH]; intros [|i]; simpl;
    try constructor; auto.
Qed.

Lemma tidy_assign (i : nat) (f : Contact -> Contact) :
  (forall c, stripped c -> stripped (f c)) -> (forall c, id (f c) = id c) ->
  keeps tidy (assign i f).
Proof.
  intros Hs Hid. apply keeps_update_self. intros s [H1 H2]. split; simpl.
  - apply Forall_update_at; assumption.
  - apply Forall_update_at; [|exact H2]. intros c. rewrite Hid. exact (fun H => H).
Qed.

Lemma tidy_flag (b : bool) :
  keeps tidy (update_self (fun s => mkPhoneBook (contacts s) (next_id s) b)).
Proof. apply keeps_update_self. intros s H. exact H. Qed.

(** The empty book is tidy, a load that succeeds on a decoded file in which
    the identifiers are integers leaves a tidy book, and the three commands
    keep a book tidy, [create_contact] when [next_id] is an integer. *)
Lemma tidy_books :
  tidy PhoneBook_init /\
  (forall self data entries,
     file_entries data = Ok entries ->
     ok (load_from_file self (Json data)) = true ->
     Forall (fun v => is_int v = true) (file_ids entries) ->
     tidy (book (load_from_file self (Json data)))) /\
  (forall self inp,
     tidy self ->
     ((exists n, next_id self = NInt n) ->
      tidy (snd (fst (create_contact self inp)))) /\
     tidy (snd (fst (edit_contact self inp))) /\
     tidy (snd (fst (delete_contact self inp)))).
Proof.
  split; [split; constructor|]. split.
  - intros self data entries He0 Hok Hi. split; [apply loaded_stripped, Hok|].
    exact (load_ints self data entries He0 Hok Hi).
  - intros self inp H. split; [|split].
    + intros [n Hn]. unfold create_contact, run, bind, input.
      destruct inp as [|l1 inp]; [exact H|].
      destruct (Str.is_empty (Str.strip l1)); [exact H|].
      destruct inp as [|l2 inp]; [exact H|].
      destruct (Str.is_empty (Str.strip l2)); [exact H|].
      destruct inp as [|l3 inp]; [exact H|].
      destruct H as [H1 H2]. split; simpl.
      * apply Forall_app. split; [exact H1|]. constructor; [|constructor].
        unfold stripped. simpl. rewrite !StrFacts.strip_idem. repeat split.
      * apply Forall_app. split; [exact H2|]. rewrite Hn. repeat constructor.
    + unfold edit_contact. destruct (contacts self) eqn:E; [exact H|].
      apply keeps_run; [|exact H].
      apply keeps_bind; [apply ask_contact_keeps|].
      intros [stop | [n i]]; repeat keeps_step;
        try apply tidy_flag;
        apply tidy_assign; try (intros []; reflexivity);
        intros ? [H1 [H2 H3]]; unfold stripped; simpl;
        rewrite ?StrFacts.strip_idem; repeat split; assumption.
    + unfold delete_contact. destruct (contacts self) eqn:E; [exact H|].
      apply keeps_run; [|exact H].
      apply keeps_bind; [apply ask_contact_keeps|].
      intros [stop | [n i]]; repeat keeps_step.
      apply keeps_update_self. intros s [H1 H2]. split; simpl;
        apply Forall_remove_at; assumption.
Qed.

(** ** The commands on sample books *)

Lemma find_contact_spec_witness :
  exists p,
    find_contact ivan_book ["4"; " Ivan "]
      = (Results (filter p (contacts ivan_book)), ivan_book, []) /\
    forall c, p c = true <-> Matches All "ivan" c.
Proof.
  destruct (find_contact_spec ivan_book "4" " Ivan " []) as [_ [H _]].
  - discriminate.
  - apply H. discriminate.
Defined.

Example find_ivan :
  find_contact ivan_book ["4"; "ivan"] = (Results [ivan; maria], ivan_book, []) /\
  find_contact ivan_book ["1"; "ivan"] = (Results [ivan], ivan_book, []) /\
  find_contact ivan_book ["3"; "IVAN"] = (Results [maria], ivan_book, []) /\
  find_contact ivan_book ["2"; "3"] = (Results [oleg], ivan_book, []) /\
  find_contact ivan_book ["4"; "   "] = (TermEmpty, ivan_book, []).
Proof. repeat split. Qed.

Lemma edit_contact_spec_witness :
  exists self',
    edit_contact ivan_book ["2"; ""; " 999 "; ""] = (Edited 2, self', []) /\
    nth_error (contacts self') 1 = Some (mkContact (JInt 2) "Maria" "999" "ask Ivan") /\
    (forall j, j <> 1%nat -> nth_error (contacts self') j = nth_error (contacts ivan_book) j) /\
    List.length (contacts self') = 3%nat /\
    next_id self' = 4 /\
    modified self' = true.
Proof.
  apply (edit_contact_spec ivan_book "2" "" " 999 " "" [] 2 1%nat maria); reflexivity.
Defined.

(** An edit in which the three lines are empty changes no contact and sets
    [modified]. *)
Lemma edit_contact_sets_flag_without_change :
  contacts (snd (fst (edit_contact ivan_book ["2"; ""; ""; ""]))) = contacts ivan_book /\
  modified ivan_book = false /\
  modified (snd (fst (edit_contact ivan_book ["2"; ""; ""; ""]))) = true.
Proof. repeat split. Qed.

(** * Further properties of the code *)

(** ** _find_by_id *)

Lemma find_by_id_iff (cs : list Contact) (n : Z) :
  (find_by_id cs n = None <-> Forall (fun c => id_is n c = false) cs) /\
  (forall i, find_by_id cs n = Some i <->
     exists c, nth_error cs i = Some c /\ id_is n c = true /\
       forall j c', (j < i)%nat -> nth_error cs j = Some c' -> id_is n c' = false).
Proof.
  induction cs as [|c cs [IHn IHs]]; simpl.
  - split.
    + split; [constructor | reflexivity].
    + intros i. split; [discriminate|]. intros [c [H _]]. destruct i; discriminate.
  - destruct (id_is n c) eqn:E.
    + split.
      * split; [discriminate|]. intros H. inversion H; congruence.
      * intros i. split.
        -- intros [= <-]. exists c. repeat split; [exact E|]. intros j c' Hj. lia.
        -- intros [c1 [H1 [H2 H3]]]. destruct i as [|i]; [reflexivity|].
           specialize (H3 O c (Nat.lt_0_succ i) eq_refl). congruence.
    + split.
      * destruct (find_by_id cs n) as [k|]; simpl.
        -- split; [discriminate|]. intros H. inversion H as [|? ? _ Hcs]; subst.
           apply IHn in Hcs. discriminate.
        -- split; [|reflexivity]. intros _. constructor; [exact E | apply IHn; reflexivity].
      * intros i. split.
        -- destruct (find_by_id cs n) as [k|]; [|discriminate].
           intros [= <-]. destruct (proj1 (IHs k) eq_refl) as [c1 [H1 [H2 H3]]].
           exists c1. repeat split; [exact H1 | exact H2 |].
           intros [|j] c' Hj; simpl; [intros [= <-]; exact E | apply H3; lia].
        -- intros [c1 [H1 [H2 H3]]]. destruct i as [|i].
           ++ simpl in H1. injection H1 as <-. congruence.
           ++ simpl in H1.
              assert (Hk : find_by_id cs n = Some i).
              { apply IHs. exists c1. repeat split; [exact H1 | exact H2 |].
                intros j c' Hj Hc'. apply (H3 (S j) c'); [lia | exact Hc']. }
              rewrite Hk. reflexivity.
Qed.

(** X1.  [_find_by_id] returns nothing exactly when no contact has the
    identifier, and otherwise the first contact of the list that has it. *)
Theorem find_by_id_spec (cs : list Contact) (n : Z) :
  (find_by_id cs n = None <-> Forall (fun c => id_is n c = false) cs) /\
  (forall i c, find_by_id cs n = Some i -> nth_error cs i = Some c ->
     id_is n c = true /\
     forall j c', (j < i)%nat -> nth_error cs j = Some c' -> id_is n c' = false) /\
  (forall i c, nth_error cs i = Some c -> id_is n c = true ->
     exists j, find_by_id cs n = Some j /\ (j <= i)%nat).
Proof.
  destruct (find_by_id_iff cs n) as [Hn Hs]. split; [exact Hn|]. split.
  - intros i c Hf Hc. apply Hs in Hf. destruct Hf as [c1 [H1 [H2 H3]]].
    rewrite Hc in H1. injection H1 as <-. split; assumption.
  - intros i c Hc Hid. destruct (find_by_id cs n) as [j|] eqn:Hf.
    + exists j. split; [reflexivity|].
      destruct (proj1 (Hs j) eq_refl) as [c1 [H1 [H2 H3]]].
      destruct (Nat.le_gt_cases j i) as [Hle | Hgt]; [exact Hle|].
      specialize (H3 i c Hgt Hc). congruence.
    + pose proof (proj1 Hn eq_refl) as Hall. rewrite Forall_forall in Hall.
      apply nth_error_In in Hc. specialize (Hall c Hc). congruence.
Qed.

Lemma find_by_id_spec_witness :
  id_is 2 maria = true /\
  forall j c', (j < 1)%nat -> nth_error (contacts ivan_book) j = Some c' ->
    id_is 2 c' = false.
Proof.
  exact (proj1 (proj2 (find_by_id_spec (contacts ivan_book) 2)) 1%nat maria
           eq_refl eq_refl).
Defined.

Lemma id_is_num (n : Z) (c : Contact) : id_is n c = true <-> id_num c = Some n.
Proof.
  unfold id_is, id_num. destruct (int_value (id c)) as [z|].
  - rewrite Z.eqb_eq. split; congruence.
  - split; discriminate.
Qed.

Lemma NoDup_nth_error_inj {A} (l : list A) (i j : nat) (x : A) :
  NoDup l -> nth_error l i = Some x -> nth_error l j = Some x -> i = j.
Proof.
  intros ND Hi Hj.
  assert (Hlt : (i < List.length l)%nat) by (apply nth_error_Some; congruence).
  apply (proj1 (NoDup_nth_error l) ND i j Hlt). congruence.
Qed.

(** X2.  When the identifiers of the list are pairwise distinct,
    [_find_by_id] finds a position exactly when the contact at that position
    has the identifier: the contact found is the only one. *)
Theorem find_by_id_unique (cs : list Contact) (n : Z) (i : nat) :
  ids_distinct cs ->
  (find_by_id cs n = Some i <->
   exists c, nth_error cs i = Some c /\ id_is n c = true).
Proof.
  intros ND. rewrite (proj2 (find_by_id_iff cs n) i). split.
  - intros [c [H1 [H2 _]]]. exists c. split; assumption.
  - intros [c [H1 H2]]. exists c. repeat split; [exact H1 | exact H2 |].
    intros j c' Hj Hc'. destruct (id_is n c') eqn:E; [|reflexivity].
    exfalso. apply id_is_num in H2, E.
    assert (Hi : nth_error (map id_num cs) i = Some (Some n))
      by (rewrite nth_error_map, H1; simpl; congruence).
    assert (Hj' : nth_error (map id_num cs) j = Some (Some n))
      by (rewrite nth_error_map, Hc'; simpl; congruence).
    pose proof (NoDup_nth_error_inj _ _ _ _ ND Hi Hj'). lia.
Qed.

Lemma find_by_id_unique_witness :
  find_by_id (contacts ivan_book) 3 = Some 2%nat <->
  exists c, nth_error (contacts ivan_book) 2 = Some c /\ id_is 3 c = true.
Proof.
  apply (find_by_id_unique (contacts ivan_book) 3 2).
  unfold ids_distinct. vm_compute.
  repeat constructor; simpl; intuition discriminate.
Defined.

(** ** delete_contact *)

Lemma remove_at_split (cs : list Contact) (i : nat) (c : Contact) :
  nth_error cs i = Some c ->
  exists before after,
    cs = (before ++ c :: after)%list /\ List.length before = i /\
    remove_at i cs = (before ++ after)%list.
Proof.
  revert i. induction cs as [|a cs IH]; intros [|i]; simpl; try discriminate.
  - intros [= ->]. exists [], cs. repeat split.
  - intros H. destruct (IH i H) as [b [t [-> [Hl Hr]]]].
    exists (a :: b), t. simpl. rewrite Hr, Hl. repeat split.
Qed.

Lemma delete_contact_eq (self : PhoneBook) (l_id l_c : string)
    (rest : list string) (n : Z) (i : nat) :
  Str.isdigit (Str.strip l_id) = true ->
  Str.parse_int (Str.strip l_id) = Some n ->
  find_by_id (contacts self) n = Some i ->
  delete_contact self (l_id :: l_c :: rest)
  = if confirms (Str.lower (Str.strip l_c))
    then (Deleted n, mkPhoneBook (remove_at i (contacts self)) (next_id self) true, rest)
    else (DeleteCancelled, self, rest).
Proof.
  intros Hd Hp Hf. unfold delete_contact.
  destruct (contacts self) as [|c0 cs] eqn:Ecs; [discriminate|].
  unfold run, bind, ask_contact, bind, input, get_self, ret.
  rewrite Hd, Hp. cbn [negb]. rewrite Ecs, Hf.
  destruct (confirms _); [|reflexivity].
  unfold update_self. rewrite Ecs. reflexivity.
Qed.

(** X3.  [delete_contact] on the identifier of a contact of the book: when
    the answer confirms, exactly the first contact with that identifier is
    taken out, the others stay in their order, [next_id] is unchanged and
    [modified] is set; with any other answer the book is left as it is. *)
Theorem delete_contact_spec (self : PhoneBook) (l_id l_c : string)
    (rest : list string) (n : Z) (i : nat) :
  Str.isdigit (Str.strip l_id) = true ->
  Str.parse_int (Str.strip l_id) = Some n ->
  find_by_id (contacts self) n = Some i ->
  exists before c after,
    contacts self = (before ++ c :: after)%list /\
    List.length before = i /\ id_is n c = true /\
    Forall (fun c' => id_is n c' = false) before /\
    (confirms (Str.lower (Str.strip l_c)) = true ->
     delete_contact self (l_id :: l_c :: rest)
       = (Deleted n, mkPhoneBook (before ++ after) (next_id self) true, rest)) /\
    (confirms (Str.lower (Str.strip l_c)) = false ->
     delete_contact self (l_id :: l_c :: rest) = (DeleteCancelled, self, rest)).
Proof.
  intros Hd Hp Hf.
  destruct (proj1 (proj2 (find_by_id_iff _ _) i) Hf) as [c [Hc [Hid Hfirst]]].
  destruct (remove_at_split _ _ _ Hc) as [before [after [Hcs [Hlen Hrem]]]].
  exists before, c, after. repeat split; try assumption.
  - apply Forall_forall. intros c' Hin. apply In_nth_error in Hin.
    destruct Hin as [j Hj].
    assert (Hlt : (j < i)%nat).
    { rewrite <- Hlen. apply nth_error_Some. congruence. }
    apply (Hfirst j c' Hlt). rewrite Hcs, nth_error_app1 by lia. exact Hj.
  - intros Hy. rewrite (delete_contact_eq _ _ _ _ _ _ Hd Hp Hf), Hy, Hrem. reflexivity.
  - intros Hy. rewrite (delete_contact_eq _ _ _ _ _ _ Hd Hp Hf), Hy. reflexivity.
Qed.

Lemma delete_contact_spec_witness :
  delete_contact ivan_book ["2"; " YES "; "x"]
    = (Deleted 2, mkPhoneBook [ivan; oleg] 4 true, ["x"]) /\
  delete_contact ivan_book ["2"; "no"; "x"] = (DeleteCancelled, ivan_book, ["x"]).
Proof.
  destruct (delete_contact_spec ivan_book "2" " YES " ["x"] 2 1%nat eq_refl eq_refl eq_refl)
    as [b1 [c1 [a1 [E1 [L1 [_ [_ [Y1 _]]]]]]]].
  destruct (delete_contact_spec ivan_book "2" "no" ["x"] 2 1%nat eq_refl eq_refl eq_refl)
    as [b2 [c2 [a2 [_ [_ [_ [_ [_ N2]]]]]]]].
  split; [|apply N2; reflexivity].
  rewrite (Y1 eq_refl).
  destruct b1 as [|x [|y b1]]; try discriminate.
  simpl in E1. injection E1 as <- _ <-. reflexivity.
Defined.

(** ** The prompt for the identifier *)

(** X4.  In [edit_contact] and [delete_contact], on a book that has
    contacts: an identifier that is not made of digits is refused; one made
    of digits that [int] does not read ends the command with a
    [ValueError]; one that no contact has is reported as not found.  In the
    three cases one line was read and the book is left as it is.  On a book
    without contacts both commands return without reading a line. *)
Theorem id_prompt_errors (self : PhoneBook) (l_id : string) (rest : list string) :
  (contacts self = [] ->
   edit_contact self (l_id :: rest) = (BookEmpty, self, l_id :: rest) /\
   delete_contact self (l_id :: rest) = (BookEmpty, self, l_id :: rest)) /\
  (contacts self <> [] -> Str.isdigit (Str.strip l_id) = false ->
   edit_contact self (l_id :: rest) = (IdNotNumber, self, rest) /\
   delete_contact self (l_id :: rest) = (IdNotNumber, self, rest)) /\
  (contacts self <> [] -> Str.isdigit (Str.strip l_id) = true ->
   Str.parse_int (Str.strip l_id) = None ->
   edit_contact self (l_id :: rest) = (Failed ValueError, self, rest) /\
   delete_contact self (l_id :: rest) = (Failed ValueError, self, rest)) /\
  (forall n, Str.isdigit (Str.strip l_id) = true ->
   Str.parse_int (Str.strip l_id) = Some n ->
   contacts self <> [] -> find_by_id (contacts self) n = None ->
   edit_contact self (l_id :: rest) = (NotFound n, self, rest) /\
   delete_contact self (l_id :: rest) = (NotFound n, self, rest)).
Proof.
  unfold edit_contact, delete_contact.
  destruct (contacts self) as [|c0 cs] eqn:Ecs.
  - repeat split; congruence.
  - unfold run, bind, ask_contact, bind, input, get_self, ret.
    split; [discriminate|]. split; [|split].
    + intros _ ->. split; reflexivity.
    + intros _ -> ->. split; reflexivity.
    + intros n -> -> _ Hf. cbn [negb]. rewrite Ecs, Hf. split; reflexivity.
Qed.

Lemma id_prompt_errors_witness :
  edit_contact PhoneBook_init ["1"; "x"] = (BookEmpty, PhoneBook_init, ["1"; "x"]) /\
  delete_contact ivan_book ["two"; "x"] = (IdNotNumber, ivan_book, ["x"]) /\
  edit_contact ivan_book [String (ascii_of_nat 178) ""; "x"]
    = (Failed ValueError, ivan_book, ["x"]) /\
  delete_contact ivan_book ["007"; "x"] = (NotFound 7, ivan_book, ["x"]).
Proof.
  split; [|split; [|split]].
  - apply (id_prompt_errors PhoneBook_init "1" ["x"]). reflexivity.
  - apply (id_prompt_errors ivan_book "two" ["x"]); [discriminate | reflexivity].
  - apply (id_prompt_errors ivan_book (String (ascii_of_nat 178) "") ["x"]);
      [discriminate | reflexivity | reflexivity].
  - apply (id_prompt_errors ivan_book "007" ["x"] ); [reflexivity | reflexivity | discriminate | reflexivity].
Defined.

(** ** find_contact, further *)

(** X5.  [find_contact] never changes the book, whatever is typed, and every
    contact it reports is a contact of the book. *)
Theorem find_contact_read_only (self : PhoneBook) (inp : list string) :
  snd (fst (find_contact self inp)) = self /\
  forall found, fst (fst (find_contact self inp)) = Results found ->
    incl found (contacts self).
Proof.
  unfold find_contact. destruct (contacts self) as [|c0 cs] eqn:Ecs.
  - split; [reflexivity | discriminate].
  - unfold run, bind, input, get_self, ret.
    destruct inp as [|l1 [|l2 inp]]; try (split; [reflexivity | discriminate]).
    destruct (Str.is_empty _); [split; [reflexivity | discriminate]|].
    split; [reflexivity|]. simpl. intros found [= <-].
    rewrite Ecs. apply incl_filter.
Qed.

Lemma find_contact_read_only_witness : incl [ivan; maria] (contacts ivan_book).
Proof.
  exact (proj2 (find_contact_read_only ivan_book ["4"; "ivan"]) [ivan; maria] eq_refl).
Defined.

(** X6.  Whatever the choice of field, the contacts a search reports are
    among those the search over all the fields (choice 4) reports for the
    same term. *)
Theorem find_contact_all_includes (self : PhoneBook) (l_choice l_term : string)
    (rest : list string) (found : list Contact) :
  fst (fst (find_contact self (l_choice :: l_term :: rest))) = Results found ->
  exists found_all,
    fst (fst (find_contact self ("4" :: l_term :: rest))) = Results found_all /\
    incl found found_all.
Proof.
  unfold find_contact. destruct (contacts self) as [|c0 cs] eqn:Ecs; [discriminate|].
  unfold run, bind, input, get_self, ret.
  destruct (Str.is_empty _); [discriminate|].
  simpl. intros [= <-]. eexists. split; [reflexivity|].
  rewrite Ecs. intros c Hc. apply filter_In in Hc. destruct Hc as [Hin Hm].
  apply filter_In. split; [exact Hin|].
  change (field_of_choice (Str.strip "4")) with All.
  destruct (field_of_choice (Str.strip l_choice)); simpl in *;
    rewrite ?Hm, ?orb_true_r; auto.
Qed.

Lemma find_contact_all_includes_witness :
  exists found_all,
    fst (fst (find_contact ivan_book ["4"; "ivan"])) = Results found_all /\
    incl [ivan] found_all.
Proof.
  apply (find_contact_all_includes ivan_book "1" "ivan" [] [ivan]). reflexivity.
Defined.

Lemma lower_char_idem (c : ascii) :
  Str.lower_char (Str.lower_char c) = Str.lower_char c.
Proof. destruct c as [[] [] [] [] [] [] [] []]; reflexivity. Qed.

Lemma isspace_lower_char (c : ascii) :
  Str.isspace (Str.lower_char c) = Str.isspace c.
Proof. destruct c as [[] [] [] [] [] [] [] []]; reflexivity. Qed.

Lemma lower_idem (s : string) : Str.lower (Str.lower s) = Str.lower s.
Proof.
  induction s as [|c s IH]; simpl; [reflexivity|].
  rewrite lower_char_idem, IH. reflexivity.
Qed.

Lemma lstrip_lower (s : string) : Str.lstrip (Str.lower s) = Str.lower (Str.lstrip s).
Proof.
  induction s as [|c s IH]; simpl; [reflexivity|].
  rewrite isspace_lower_char. destruct (Str.isspace c); [exact IH | reflexivity].
Qed.

Lemma rstrip_lower (s : string) : Str.rstrip (Str.lower s) = Str.lower (Str.rstrip s).
Proof.
  induction s as [|c s IH]; simpl; [reflexivity|].
  rewrite IH, isspace_lower_char.
  destruct (Str.rstrip s); simpl; [destruct (Str.isspace c)|]; reflexivity.
Qed.

Lemma strip_lower (s : string) : Str.strip (Str.lower s) = Str.lower (Str.strip s).
Proof. unfold Str.strip. rewrite lstrip_lower, rstrip_lower. reflexivity. Qed.

(** X7.  The search does not look at the case of the term: a term and the
    same term in lower case give the same report (and leave the same
    book). *)
Theorem find_contact_term_case (self : PhoneBook) (l_choice l_term : string)
    (rest : list string) :
  fst (find_contact self (l_choice :: Str.lower l_term :: rest))
  = fst (find_contact self (l_choice :: l_term :: rest)).
Proof.
  unfold find_contact. destruct (contacts self); [reflexivity|].
  unfold run, bind, input.
  rewrite strip_lower, lower_idem. reflexivity.
Qed.

(** ** create_contact and edit_contact at the end of the input *)

(** X8.  [create_contact] changes the book only when it reports a contact
    created; in particular the book is unchanged when fewer than three lines
    can be read. *)
Theorem create_contact_atomic (self : PhoneBook) (inp : list string) :
  ((exists c warn, fst (fst (create_contact self inp)) = Created c warn) \/
   snd (fst (create_contact self inp)) = self) /\
  ((List.length inp < 3)%nat -> snd (fst (create_contact self inp)) = self).
Proof.
  unfold create_contact, run, bind, input.
  destruct inp as [|l1 inp]; [split; [right|]; reflexivity|].
  destruct (Str.is_empty (Str.strip l1)); [split; [right|]; reflexivity|].
  destruct inp as [|l2 inp]; [split; [right|]; reflexivity|].
  destruct (Str.is_empty (Str.strip l2)); [split; [right|]; reflexivity|].
  destruct inp as [|l3 inp]; [split; [right|]; reflexivity|].
  split; [left; simpl; eauto | simpl; lia].
Qed.

Lemma create_contact_atomic_witness :
  snd (fst (create_contact ivan_book ["Eve"; "111"])) = ivan_book.
Proof.
  apply (proj2 (create_contact_atomic ivan_book ["Eve"; "111"])). simpl. lia.
Defined.

(** X9.  [edit_contact] when the input ends after the new name was typed:
    the command ends with [EOFError], the contact has the new name, and
    [modified] is left as it was. *)
Theorem edit_contact_input_ends (self : PhoneBook) (l_id l1 : string)
    (n : Z) (i : nat) (c : Contact) :
  Str.isdigit (Str.strip l_id) = true ->
  Str.parse_int (Str.strip l_id) = Some n ->
  find_by_id (contacts self) n = Some i ->
  nth_error (contacts self) i = Some c ->
  Str.strip l1 <> EmptyString ->
  exists self',
    edit_contact self [l_id; l1] = (Failed EOFError, self', []) /\
    nth_error (contacts self') i
      = Some (mkContact (id c) (Str.strip l1) (phone c) (comment c)) /\
    (forall j, j <> i -> nth_error (contacts self') j = nth_error (contacts self) j) /\
    next_id self' = next_id self /\
    modified self' = modified self.
Proof.
  intros Hd Hp Hf Hc Hn. apply StrFacts.is_empty_false in Hn.
  unfold edit_contact. destruct (contacts self) as [|c0 cs] eqn:Ecs; [discriminate|].
  unfold run, bind, ask_contact, bind, input, get_self, ret.
  rewrite Hd, Hp. cbn [negb]. rewrite Ecs, Hf, Hn.
  unfold assign, update_self. eexists. split; [reflexivity|].
  cbn [contacts next_id modified]. rewrite Ecs.
  rewrite nth_error_update_at_eq, Hc. repeat split.
  intros j Hj. apply nth_error_update_at_neq, Hj.
Qed.

Lemma edit_contact_input_ends_witness :
  exists self',
    edit_contact ivan_book ["3"; "Olga"] = (Failed EOFError, self', []) /\
    nth_error (contacts self') 2 = Some (mkContact (JInt 3) "Olga" "333" "") /\
    (forall j, j <> 2%nat -> nth_error (contacts self') j = nth_error (contacts ivan_book) j) /\
    next_id self' = 4 /\
    modified self' = false.
Proof.
  apply (edit_contact_input_ends ivan_book "3" "Olga" 3 2%nat oleg);
    try reflexivity. discriminate.
Defined.

(** X10.  [edit_contact] never changes an identifier, the number or the
    order of the contacts, or [next_id], whatever is typed. *)
Theorem edit_contact_keeps_ids (self : PhoneBook) (inp : list string) :
  map id (contacts (snd (fst (edit_contact self inp)))) = map id (contacts self) /\
  next_id (snd (fst (edit_contact self inp))) = next_id self.
Proof.
  set (P := fun s : PhoneBook =>
              map id (contacts s) = map id (contacts self) /\ next_id s = next_id self).
  change (P (snd (fst (edit_contact self inp)))).
  assert (H : P self) by (split; reflexivity).
  unfold edit_contact. destruct (contacts self) eqn:E; [exact H|].
  apply keeps_run; [|exact H].
  assert (Ha : forall i f, (forall c, id (f c) = id c) -> keeps P (assign i f)).
  { intros i f Hf. apply keeps_update_self. intros s [H1 H2]. split; [|exact H2].
    cbn [contacts]. rewrite <- H1. clear - Hf. generalize (contacts s) as cs.
    intros cs. revert i. induction cs as [|c cs IH]; intros [|i]; simpl;
      rewrite ?Hf, ?IH; reflexivity. }
  apply keeps_bind; [apply ask_contact_keeps|].
  intros [stop | [n i]]; repeat keeps_step;
    apply Ha; intros []; reflexivity.
Qed.

(** ** Lookup after a command *)

Lemma find_by_id_app (cs : list Contact) (c : Contact) (m : Z) :
  find_by_id (cs ++ [c]) m =
    match find_by_id cs m with
    | Some i => Some i
    | None => if id_is m c then Some (List.length cs) else None
    end.
Proof.
  induction cs as [|a cs IH]; simpl.
  - destruct (id_is m c); reflexivity.
  - destruct (id_is m a); [reflexivity|]. rewrite IH.
    destruct (find_by_id cs m); [reflexivity|]. destruct (id_is m c); reflexivity.
Qed.

(** X11.  After [create_contact] has created a contact in a book whose
    [next_id] is an integer and whose identifiers are below it,
    [_find_by_id] finds the new contact under the identifier it was given,
    at the end of the list, and finds under every other identifier what it
    found before. *)
Theorem create_then_find (self : PhoneBook) (n : Z) (l1 l2 l3 : string)
    (rest : list string) :
  next_id self = NInt n ->
  ids_below n (contacts self) ->
  Str.strip l1 <> EmptyString -> Str.strip l2 <> EmptyString ->
  let self' := snd (fst (create_contact self (l1 :: l2 :: l3 :: rest))) in
  find_by_id (contacts self') n = Some (List.length (contacts self)) /\
  nth_error (contacts self') (List.length (contacts self))
    = Some (mkContact (JInt n) (Str.strip l1) (Str.strip l2) (Str.strip l3)) /\
  forall m, m <> n ->
    find_by_id (contacts self') m = find_by_id (contacts self) m.
Proof.
  intros Hn Hb H1 H2 self'.
  assert (Hc : contacts self'
               = (contacts self
                  ++ [mkContact (JInt n) (Str.strip l1) (Str.strip l2)
                                (Str.strip l3)])%list).
  { unfold self', create_contact, run, bind, input.
    apply StrFacts.is_empty_false in H1, H2. rewrite H1, H2. cbn.
    unfold new_Contact. rewrite !StrFacts.strip_idem, Hn. reflexivity. }
  rewrite Hc.
  set (c := mkContact (JInt n) (Str.strip l1) (Str.strip l2) (Str.strip l3)).
  assert (Hv : c = mkContact (JInt n) (Str.strip l1) (Str.strip l2)
                             (Str.strip l3)) by reflexivity.
  assert (Hnone : find_by_id (contacts self) n = None).
  { apply find_by_id_iff. unfold ids_below in Hb. eapply Forall_impl; [|exact Hb].
    intros a [z [Hz Hlt]]. destruct (id_is n a) eqn:Ea; [|reflexivity].
    apply id_is_num in Ea. rewrite Ea in Hz. injection Hz as <-. lia. }
  repeat split.
  - rewrite find_by_id_app, Hnone, Hv. unfold id_is. simpl. rewrite Z.eqb_refl. reflexivity.
  - rewrite nth_error_app2, Nat.sub_diag, Hv by lia. reflexivity.
  - intros m Hm. rewrite find_by_id_app. destruct (find_by_id (contacts self) m); [reflexivity|].
    rewrite Hv. unfold id_is. simpl.
    destruct (Z.eqb_spec n m); [congruence | reflexivity].
Qed.

Lemma create_then_find_witness :
  find_by_id (contacts (snd (fst (create_contact ivan_book ["Eve"; "111"; ""])))) 4
    = Some 3%nat.
Proof.
  refine (proj1 (create_then_find ivan_book 4 "Eve" "111" "" [] eq_refl _ _ _)).
  - unfold ids_below. repeat constructor; eexists; (split; [reflexivity | reflexivity]).
  - discriminate.
  - discriminate.
Defined.

(** X12.  After a confirmed [delete_contact] in a book whose identifiers are
    pairwise distinct, [_find_by_id] no longer finds the identifier deleted,
    and an identifier other than that one is found exactly when it was
    found before. *)
Theorem delete_then_find (self : PhoneBook) (l_id l_c : string)
    (rest : list string) (n : Z) (i : nat) :
  ids_distinct (contacts self) ->
  Str.isdigit (Str.strip l_id) = true ->
  Str.parse_int (Str.strip l_id) = Some n ->
  find_by_id (contacts self) n = Some i ->
  confirms (Str.lower (Str.strip l_c)) = true ->
  let self' := snd (fst (delete_contact self (l_id :: l_c :: rest))) in
  find_by_id (contacts self') n = None /\
  forall m, m <> n ->
    (find_by_id (contacts self') m = None <-> find_by_id (contacts self) m = None).
Proof.
  intros ND Hd Hp Hf Hy self'.
  destruct (proj1 (proj2 (find_by_id_iff _ _) i) Hf) as [c [Hc [Hid Hfirst]]].
  destruct (remove_at_split _ _ _ Hc) as [before [after [E [Hlen Hrem]]]].
  unfold self'. rewrite (delete_contact_eq _ _ _ _ _ _ Hd Hp Hf), Hy.
  cbn [fst snd contacts]. rewrite Hrem.
  assert (Hbef : Forall (fun c' => id_is n c' = false) before).
  { apply Forall_forall. intros c' Hin. apply In_nth_error in Hin.
    destruct Hin as [j Hj].
    assert (Hlt : (j < i)%nat).
    { rewrite <- Hlen. apply nth_error_Some. congruence. }
    apply (Hfirst j c' Hlt). rewrite E, nth_error_app1 by lia. exact Hj. }
  unfold ids_distinct in ND. rewrite E, map_app in ND. simpl in ND.
  apply NoDup_remove_2 in ND. apply id_is_num in Hid.
  assert (Haft : Forall (fun c' => id_is n c' = false) after).
  { apply Forall_forall. intros a Ha. destruct (id_is n a) eqn:Ea; [|reflexivity].
    exfalso. apply ND. apply in_or_app. right. apply id_is_num in Ea.
    rewrite Hid, <- Ea. apply in_map, Ha. }
  split.
  - apply find_by_id_iff. apply Forall_app. split; assumption.
  - intros m Hm. rewrite !(proj1 (find_by_id_iff _ _)), E, !Forall_app.
    assert (Hcm : id_is m c = false).
    { destruct (id_is m c) eqn:Ec; [|reflexivity]. apply id_is_num in Ec. congruence. }
    split.
    + intros [Hb Ha]. split; [exact Hb | constructor; assumption].
    + intros [Hb Ha]. inversion Ha; subst. split; assumption.
Qed.

Lemma delete_then_find_witness :
  find_by_id (contacts (snd (fst (delete_contact ivan_book ["2"; "y"])))) 2 = None.
Proof.
  refine (proj1 (delete_then_find ivan_book "2" "y" [] 2 1%nat _ eq_refl eq_refl
                   eq_refl eq_refl)).
  unfold ids_distinct. vm_compute. repeat constructor; simpl; intuition discriminate.
Defined.

(** ** load_from_file and save_to_file, further *)



(** The warnings for the entries before the one that cannot be read were
    printed when the load fails. *)
Lemma load_warns_before_failing :
  load_from_file ann_book (file_of [JDict [("name", JStr "Cid")]; JInt 3])
  = mkLoad false [1%nat] ann_book.
Proof. reflexivity. Qed.

Lemma nums_of_None (vs : list json) :
  existsb (fun v => negb (is_num v)) vs = true -> nums_of vs = None.
Proof.
  induction vs as [|v vs IH]; simpl; [discriminate|].
  unfold is_num at 1. destruct (num_of v); simpl.
  - intros H. rewrite (IH H). reflexivity.
  - reflexivity.
Qed.

(** X13.  A file whose entries can all be read but in which an identifier is
    neither absent nor a number: [load_from_file] returns false after it
    has replaced the contacts by those of the file, with the identifiers as
    they are written; [next_id] and [modified] are left as they were. *)
Theorem load_fails_after_reading (self : PhoneBook) (d : list (string * json))
    (entries : list json) :
  dict_get "contacts" d = Some (JList entries) ->
  Forall (fun e => readable e = true) entries ->
  existsb (fun v => negb (is_num v)) (file_ids entries) = true ->
  ok (load_from_file self (Json (JDict d))) = false /\
  Forall2 describes (filter required entries)
          (contacts (book (load_from_file self (Json (JDict d))))) /\
  next_id (book (load_from_file self (Json (JDict d)))) = next_id self /\
  modified (book (load_from_file self (Json (JDict d)))) = modified self.
Proof.
  intros Hd Hr Hx.
  destruct (read_contacts_total entries 0 Hr) as [cs0 [ws Hread]].
  destruct (read_contacts_ids _ _ _ _ Hread) as [Hids _].
  pose proof (read_contacts_Ok _ _ _ _ Hread) as [_ [D _]].
  assert (Hf : first_free cs0 = Raise TypeError).
  { unfold first_free. rewrite Hids.
    destruct (file_ids entries) as [|v vs] eqn:E; [discriminate|].
    unfold max_plus_one. rewrite (nums_of_None _ Hx). reflexivity. }
  unfold load_from_file, get_default. rewrite Hd. cbn [py_iter]. rewrite Hread.
  destruct cs0 as [|c0 cs0].
  - unfold first_free in Hf. simpl in Hf. discriminate.
  - rewrite Hf. simpl. repeat split. exact D.
Qed.

Lemma load_fails_after_reading_witness :
  ok (load_from_file ann_book
        (file_of [entry "Bob" "777" []; entry "Cid" "888" [("id", JStr "x")]])) = false /\
  Forall2 describes
    (filter required [entry "Bob" "777" []; entry "Cid" "888" [("id", JStr "x")]])
    (contacts (book (load_from_file ann_book
        (file_of [entry "Bob" "777" []; entry "Cid" "888" [("id", JStr "x")]])))) /\
  next_id (book (load_from_file ann_book
        (file_of [entry "Bob" "777" []; entry "Cid" "888" [("id", JStr "x")]]))) = 2 /\
  modified (book (load_from_file ann_book
        (file_of [entry "Bob" "777" []; entry "Cid" "888" [("id", JStr "x")]]))) = true.
Proof.
  apply (load_fails_after_reading ann_book
           [("contacts", JList [entry "Bob" "777" []; entry "Cid" "888" [("id", JStr "x")]])]
           [entry "Bob" "777" []; entry "Cid" "888" [("id", JStr "x")]]).
  - reflexivity.
  - repeat constructor.
  - reflexivity.
Defined.

(** X14.  What a load that succeeds on a decoded file leaves in the book
    depends on the file alone: whether it succeeds, the warnings, the
    contacts and [next_id] are the same whatever the book held before. *)
Theorem load_forgets_book (self1 self2 : PhoneBook) (data : json) :
  ok (load_from_file self1 (Json data)) = ok (load_from_file self2 (Json data)) /\
  (ok (load_from_file self1 (Json data)) = true ->
   skipped (load_from_file self1 (Json data)) = skipped (load_from_file self2 (Json data)) /\
   contacts (book (load_from_file self1 (Json data)))
     = contacts (book (load_from_file self2 (Json data))) /\
   next_id (book (load_from_file self1 (Json data)))
     = next_id (book (load_from_file self2 (Json data)))).
Proof.
  assert (H : forall s s', ok (load_from_file s (Json data)) = true ->
            ok (load_from_file s' (Json data)) = true /\
            skipped (load_from_file s (Json data)) = skipped (load_from_file s' (Json data)) /\
            contacts (book (load_from_file s (Json data)))
              = contacts (book (load_from_file s' (Json data))) /\
            next_id (book (load_from_file s (Json data)))
              = next_id (book (load_from_file s' (Json data)))).
  { intros s s' Hok. destruct (load_ok_inv _ _ Hok)
      as [entries [cs0 [ws [n [cs [n' [a [He [Hr [Hf Ha]]]]]]]]]].
    rewrite (load_run s _ _ _ _ _ _ _ _ He Hr Hf Ha).
    rewrite (load_run s' _ _ _ _ _ _ _ _ He Hr Hf Ha). repeat split. }
  split.
  - destruct (ok (load_from_file self1 (Json data))) eqn:E1.
    + symmetry. apply (H self1 self2 E1).
    + destruct (ok (load_from_file self2 (Json data))) eqn:E2; [|reflexivity].
      destruct (H self2 self1 E2) as [E _]. congruence.
  - intros Hok. apply (H self1 self2 Hok).
Qed.

Lemma load_forgets_book_witness :
  contacts (book (load_from_file ivan_book (file_of sample_entries)))
  = contacts (book (load_from_file PhoneBook_init (file_of sample_entries))).
Proof.
  exact (proj1 (proj2 (proj2 (load_forgets_book ivan_book PhoneBook_init
                                (JDict [("contacts", JList sample_entries)])) eq_refl))).
Defined.

(** X15.  [next_id] is not written in the file: after a tidy book is saved
    and the file loaded, the contacts are the same and [next_id] is one more
    than the greatest identifier among them, or 1 when there is no contact,
    whatever it was before. *)
Theorem save_load_next_id (self : PhoneBook) (disk : file) (now : string) :
  tidy self ->
  exists s2 f,
    save_to_file self disk WriteOk now = (true, s2, f) /\
    load_from_file s2 f
      = mkLoad true []
          (mkPhoneBook (contacts self) (base_id (map id (contacts self))) false).
Proof.
  intros Ht. pose proof (tidy_nums _ Ht) as Hn.
  pose proof (is_num_not_none _ Hn) as Hnn.
  eexists _, _. split; [reflexivity|].
  destruct (load_book_file (mkPhoneBook (contacts self) (next_id self) false)
              (contacts self) now (proj1 Ht) Hn) as [n [Hl Hf]].
  apply first_free_base in Hf.
  - rewrite (ids_with_values_all _ Hnn) in Hf. subst n. exact Hl.
  - rewrite (ids_with_values_all _ Hnn). apply Forall_map. exact (proj2 Ht).
Qed.

Lemma save_load_next_id_witness :
  exists s2 f,
    save_to_file (mkPhoneBook [ivan; maria] 4 true) NoFile WriteOk "t" = (true, s2, f) /\
    load_from_file s2 f = mkLoad true [] (mkPhoneBook [ivan; maria] 3 false).
Proof.
  apply (save_load_next_id (mkPhoneBook [ivan; maria] 4 true) NoFile "t").
  split; repeat constructor.
Defined.

(** ** Contact.to_dict and Contact.from_dict *)

(** X16.  [from_dict] reads what [to_dict] writes: the result has the same
    identifier and the stripped fields, and it is the contact itself when
    this one was built by the constructor. *)
Theorem from_dict_to_dict_new (c : Contact) (n p k : string) (v : json) :
  from_dict (to_dict c)
    = Ok (mkContact (id c) (Str.strip (name c)) (Str.strip (phone c))
                    (Str.strip (comment c))) /\
  from_dict (to_dict (new_Contact n p k v)) = Ok (new_Contact n p k v).
Proof.
  split; [reflexivity|].
  apply from_dict_to_dict. unfold stripped, new_Contact. simpl.
  rewrite !StrFacts.strip_idem. repeat split.
Qed.

(** ** _validate_phone *)

Lemma is_in_char (c : ascii) (s : string) :
  Str.is_in (String c EmptyString) s = true <-> In c (list_ascii_of_string s).
Proof.
  induction s as [|a s IH]; simpl.
  - split; [discriminate | intros []].
  - rewrite orb_true_iff, IH. destruct s; simpl;
      rewrite andb_true_r, Ascii.eqb_eq; split;
      (intros [H | H]; [left; congruence | right; exact H]).
Qed.

Lemma all_chars_Forall (p : ascii -> bool) (s : string) :
  Str.all_chars p s = true <-> Forall (fun c => p c = true) (list_ascii_of_string s).
Proof.
  induction s as [|a s IH]; simpl.
  - split; [constructor | reflexivity].
  - rewrite andb_true_iff, IH. split.
    + intros [H1 H2]. constructor; assumption.
    + intros H. inversion H; subst. split; assumption.
Qed.

Lemma validate_phone_iff (p : string) :
  validate_phone p = true <->
  Forall (fun ch => In ch phone_chars) (list_ascii_of_string p).
Proof.
  unfold validate_phone, Str.all_in. rewrite all_chars_Forall.
  split; apply Forall_impl; intros ch; apply is_in_char.
Qed.

(** X17.  The check of the phone does not stop [create_contact]: with a name
    and a phone that are not empty the contact is created with the phone as
    typed, and the report tells whether every character of the phone is a
    digit, a space or one of [+ - ( )]. *)
Theorem create_contact_phone_check (self : PhoneBook) (l1 l2 l3 : string)
    (rest : list string) :
  Str.strip l1 <> EmptyString -> Str.strip l2 <> EmptyString ->
  exists c phone_ok,
    fst (fst (create_contact self (l1 :: l2 :: l3 :: rest))) = Created c phone_ok /\
    phone c = Str.strip l2 /\
    (phone_ok = true <->
     Forall (fun ch => In ch phone_chars) (list_ascii_of_string (Str.strip l2))).
Proof.
  intros H1 H2. apply StrFacts.is_empty_false in H1, H2.
  exists (new_Contact (Str.strip l1) (Str.strip l2) (Str.strip l3)
            (json_of_num (next_id self))),
         (validate_phone (Str.strip l2)).
  split; [|split].
  - unfold create_contact, run, bind, input. rewrite H1, H2. reflexivity.
  - apply StrFacts.strip_idem.
  - apply validate_phone_iff.
Qed.

Lemma create_contact_phone_check_witness :
  exists c phone_ok,
    fst (fst (create_contact ivan_book ["Eve"; "call me"; ""])) = Created c phone_ok /\
    phone c = "call me" /\
    (phone_ok = true <->
     Forall (fun ch => In ch phone_chars) (list_ascii_of_string "call me")).
Proof.
  apply (create_contact_phone_check ivan_book "Eve" "call me" "" []); discriminate.
Defined.

(** ** has_unsaved_changes *)

Lemma tracks_ret (r : report) : is_change r = false -> tracks (ret r).
Proof. intros H self inp Hm. simpl. congruence. Qed.

Lemma tracks_raise (e : exn) : tracks (raise e).
Proof. intros self inp Hm. exact Hm. Qed.

Lemma tracks_bind {A} (m : M A) (k : A -> M report) :
  keeps (fun s => modified s = false) m -> (forall a, tracks (k a)) ->
  tracks (bind m k).
Proof.
  intros Hm Hk self inp H. unfold bind. specialize (Hm self inp H).
  destruct (m self inp) as [a s' r | e s' r]; [apply Hk, Hm | exact Hm].
Qed.

Lemma tracks_set (r : report) (f : PhoneBook -> PhoneBook) :
  is_change r = true -> (forall s, modified (f s) = true) ->
  tracks (bind (update_self f) (fun _ => ret r)).
Proof. intros Hr Hf self inp _. simpl. rewrite Hf, Hr. reflexivity. Qed.

Lemma tracks_run (body : M report) (self : PhoneBook) (inp : list string) :
  tracks body -> modified self = false ->
  modified (snd (fst (run body self inp))) = is_change (fst (fst (run body self inp))).
Proof.
  intros Hb Hm. unfold run. specialize (Hb self inp Hm).
  destruct (body self inp); exact Hb.
Qed.

Lemma ask_contact_result (self : PhoneBook) (inp : list string) :
  match ask_contact self inp with
  | Done (inl stop) s' _ => s' = self /\ is_change stop = false
  | Done (inr _) s' _ => s' = self
  | Exc _ s' _ => s' = self
  end.
Proof.
  unfold ask_contact, bind, input, get_self, ret, raise.
  destruct inp as [|l inp]; [reflexivity|].
  destruct (Str.isdigit (Str.strip l)); simpl; [|split; reflexivity].
  destruct (Str.parse_int (Str.strip l)); [|reflexivity].
  destruct (find_by_id (contacts self) z); [reflexivity | split; reflexivity].
Qed.

Ltac tracks_step :=
  cbn beta iota zeta;
  first
    [ apply tracks_ret; reflexivity
    | apply tracks_raise
    | apply tracks_set; [reflexivity | intros ?; reflexivity]
    | apply tracks_bind;
      [ first [ apply keeps_input | apply keeps_get_self
              | apply keeps_ret
              | apply keeps_update_self; intros ? H'; exact H' ]
      | intros ? ]
    | match goal with
      | |- tracks (if ?b then _ else _) => destruct b
      end ].

(** X18.  After a save that succeeded there are no unsaved changes, and
    after the command that follows there are unsaved changes exactly when
    the command reports a contact created, edited or deleted; a search never
    makes any. *)
Theorem unsaved_changes_after_save (self : PhoneBook) (disk : file) (now : string)
    (inp : list string) :
  let saved := snd (fst (save_to_file self disk WriteOk now)) in
  has_unsaved_changes saved = false /\
  has_unsaved_changes (snd (fst (create_contact saved inp)))
    = is_change (fst (fst (create_contact saved inp))) /\
  has_unsaved_changes (snd (fst (edit_contact saved inp)))
    = is_change (fst (fst (edit_contact saved inp))) /\
  has_unsaved_changes (snd (fst (delete_contact saved inp)))
    = is_change (fst (fst (delete_contact saved inp))) /\
  has_unsaved_changes (snd (fst (find_contact saved inp))) = false.
Proof.
  intros saved. unfold has_unsaved_changes.
  assert (Hm : modified saved = false) by reflexivity.
  generalize dependent saved. intros s Hm.
  split; [exact Hm|]. split; [|split; [|split]].
  - apply tracks_run; [|exact Hm]. repeat tracks_step.
  - unfold edit_contact. destruct (contacts s) eqn:E; [exact Hm|].
    apply tracks_run; [|exact Hm].
    intros s0 inp0 H0. unfold bind at 1.
    pose proof (ask_contact_result s0 inp0) as Hr.
    destruct (ask_contact s0 inp0) as [[stop | [n i]] s' r | e s' r].
    + destruct Hr as [-> Hs]. simpl. congruence.
    + subst s'. revert s0 r H0. change (tracks
        (l <- input ;;
         (if Str.is_empty (Str.strip l) then ret tt
          else assign i (set_name (Str.strip l))) ;;;
         l0 <- input ;;
         (if Str.is_empty (Str.strip l0) then ret tt
          else assign i (set_phone (Str.strip l0))) ;;;
         l1 <- input ;;
         (if Str.is_empty (Str.strip l1) then ret tt
          else assign i (set_comment (Str.strip l1))) ;;;
         update_self (fun s1 => mkPhoneBook (contacts s1) (next_id s1) true) ;;;
         ret (Edited n))).
      apply tracks_bind; [apply keeps_input | intros l1].
      apply tracks_bind;
        [destruct (Str.is_empty _); [apply keeps_ret | apply keeps_update_self; intros ? H'; exact H'] | intros _].
      apply tracks_bind; [apply keeps_input | intros l2].
      apply tracks_bind;
        [destruct (Str.is_empty _); [apply keeps_ret | apply keeps_update_self; intros ? H'; exact H'] | intros _].
      apply tracks_bind; [apply keeps_input | intros l3].
      apply tracks_bind;
        [destruct (Str.is_empty _); [apply keeps_ret | apply keeps_update_self; intros ? H'; exact H'] | intros _].
      apply tracks_set; [reflexivity | intros ?; reflexivity].
    + subst s'. exact H0.
  - unfold delete_contact. destruct (contacts s) eqn:E; [exact Hm|].
    apply tracks_run; [|exact Hm].
    intros s0 inp0 H0. unfold bind at 1.
    pose proof (ask_contact_result s0 inp0) as Hr.
    destruct (ask_contact s0 inp0) as [[stop | [n i]] s' r | e s' r].
    + destruct Hr as [-> Hs]. simpl. congruence.
    + subst s'. revert s0 r H0. change (tracks
        (l <- input ;;
         if confirms (Str.lower (Str.strip l))
         then update_self (fun s1 =>
                mkPhoneBook (remove_at i (contacts s1)) (next_id s1) true) ;;;
              ret (Deleted n)
         else ret DeleteCancelled)).
      repeat tracks_step.
    + subst s'. exact H0.
  - unfold find_contact. destruct (contacts s); [exact Hm|].
    unfold run, bind, input, get_self, ret.
    destruct inp as [|l1 [|l2 inp]]; try exact Hm.
    destruct (Str.is_empty _); exact Hm.
Qed.

(** ** The lines a command reads *)

Lemma reads_weaken {A} (j k : nat) (m : M A) : (j <= k)%nat -> reads j m -> reads k m.
Proof.
  intros Hjk H self inp. specialize (H self inp).
  destruct (m self inp); destruct H as [u [E L]]; exists u; split; try exact E; lia.
Qed.

Lemma reads_ret {A} (a : A) : reads 0 (ret a).
Proof. intros self inp. exists []. split; [reflexivity | simpl; lia]. Qed.

Lemma reads_raise {A} (e : exn) : reads 0 (@raise A e).
Proof. intros self inp. exists []. split; [reflexivity | simpl; lia]. Qed.

Lemma reads_get_self : reads 0 get_self.
Proof. intros self inp. exists []. split; [reflexivity | simpl; lia]. Qed.

Lemma reads_update_self (f : PhoneBook -> PhoneBook) : reads 0 (update_self f).
Proof. intros self inp. exists []. split; [reflexivity | simpl; lia]. Qed.

Lemma reads_input : reads 1 input.
Proof.
  intros self [|l inp]; simpl.
  - exists []. split; [reflexivity | simpl; lia].
  - exists [l]. split; [reflexivity | simpl; lia].
Qed.

Lemma reads_bind {A B} (j k : nat) (m : M A) (f : A -> M B) :
  reads j m -> (forall a, reads k (f a)) -> reads (j + k) (bind m f).
Proof.
  intros Hm Hf self inp. unfold bind. specialize (Hm self inp).
  destruct (m self inp) as [a s' r | e s' r].
  - destruct Hm as [u [E L]]. specialize (Hf a s' r).
    destruct (f a s' r); destruct Hf as [u' [E' L']];
      exists (u ++ u')%list; rewrite E, E', app_assoc, length_app;
      (split; [reflexivity | lia]).
  - destruct Hm as [u [E L]]. exists u. split; [exact E | lia].
Qed.

Lemma reads_run (k : nat) (body : M report) (self : PhoneBook) (inp : list string) :
  reads k body ->
  exists used, inp = (used ++ snd (run body self inp))%list /\ (List.length used <= k)%nat.
Proof.
  intros H. unfold run. specialize (H self inp). destruct (body self inp); exact H.
Qed.

Ltac reads_step :=
  cbn beta iota zeta;
  first
    [ apply (reads_weaken 0); [lia | first [ apply reads_ret | apply reads_raise
                                           | apply reads_update_self ]]
    | match goal with
      | |- reads _ (if ?b then _ else _) => destruct b
      | |- reads _ (match ?x with _ => _ end) => destruct x
      end ].

Lemma ask_contact_reads : reads 1 ask_contact.
Proof.
  unfold ask_contact.
  apply (reads_bind 1 0); [apply reads_input | intros l].
  repeat reads_step.
  apply (reads_bind 0 0); [apply reads_get_self | intros s]. repeat reads_step.
Qed.

Lemma create_contact_reads (self : PhoneBook) (inp : list string) :
  exists used, inp = (used ++ snd (create_contact self inp))%list /\
               (List.length used <= 3)%nat.
Proof.
  apply reads_run.
  apply (reads_bind 1 2); [apply reads_input | intros l1]. repeat reads_step.
  apply (reads_bind 1 1); [apply reads_input | intros l2]. repeat reads_step.
  apply (reads_bind 1 0); [apply reads_input | intros l3]. cbn zeta.
  apply (reads_bind 0 0); [apply reads_get_self | intros s]. cbn zeta.
  apply (reads_bind 0 0); [apply reads_update_self | intros _]. apply reads_ret.
Qed.

Lemma find_contact_reads (self : PhoneBook) (inp : list string) :
  exists used, inp = (used ++ snd (find_contact self inp))%list /\
               (List.length used <= 2)%nat.
Proof.
  unfold find_contact. destruct (contacts self) as [|c0 cs0].
  - exists []. split; [reflexivity | simpl; lia].
  - apply reads_run.
    apply (reads_bind 1 1); [apply reads_input | intros l1]. cbn zeta.
    apply (reads_bind 1 0); [apply reads_input | intros l2]. repeat reads_step.
    apply (reads_bind 0 0); [apply reads_get_self | intros s]. apply reads_ret.
Qed.

Lemma assign_or_skip_reads (b : bool) (i : nat) (f : Contact -> Contact) :
  reads 0 (if b then ret tt else assign i f).
Proof. destruct b; [apply reads_ret | apply reads_update_self]. Qed.

Lemma edit_contact_reads (self : PhoneBook) (inp : list string) :
  exists used, inp = (used ++ snd (edit_contact self inp))%list /\
               (List.length used <= 4)%nat.
Proof.
  unfold edit_contact. destruct (contacts self) as [|c0 cs0].
  - exists []. split; [reflexivity | simpl; lia].
  - apply reads_run.
    apply (reads_bind 1 3); [apply ask_contact_reads | intros [stop | [n i]]].
    + apply (reads_weaken 0); [lia | apply reads_ret].
    + apply (reads_bind 1 2); [apply reads_input | intros l1]. cbn zeta.
      apply (reads_bind 0 2); [apply assign_or_skip_reads | intros _].
      apply (reads_bind 1 1); [apply reads_input | intros l2]. cbn zeta.
      apply (reads_bind 0 1); [apply assign_or_skip_reads | intros _].
      apply (reads_bind 1 0); [apply reads_input | intros l3]. cbn zeta.
      apply (reads_bind 0 0); [apply assign_or_skip_reads | intros _].
      apply (reads_bind 0 0); [apply reads_update_self | intros _]. apply reads_ret.
Qed.

Lemma delete_contact_reads (self : PhoneBook) (inp : list string) :
  exists used, inp = (used ++ snd (delete_contact self inp))%list /\
               (List.length used <= 2)%nat.
Proof.
  unfold delete_contact. destruct (contacts self) as [|c0 cs0].
  - exists []. split; [reflexivity | simpl; lia].
  - apply reads_run.
    apply (reads_bind 1 1); [apply ask_contact_reads | intros [stop | [n i]]].
    + apply (reads_weaken 0); [lia | apply reads_ret].
    + apply (reads_bind 1 0); [apply reads_input | intros l]. cbn zeta.
      destruct (confirms _); [|apply reads_ret].
      apply (reads_bind 0 0); [apply reads_update_self | intros _]. apply reads_ret.
Qed.

(** X19.  A command reads its lines from the front of the input and leaves
    the others untouched: at most three for [create_contact], two for
    [find_contact], four for [edit_contact] and two for [delete_contact],
    also when it ends with an error. *)
Theorem commands_read_prefix (self : PhoneBook) (inp : list string) :
  (exists used, inp = (used ++ snd (create_contact self inp))%list /\
                (List.length used <= 3)%nat) /\
  (exists used, inp = (used ++ snd (find_contact self inp))%list /\
                (List.length used <= 2)%nat) /\
  (exists used, inp = (used ++ snd (edit_contact self inp))%list /\
                (List.length used <= 4)%nat) /\
  (exists used, inp = (used ++ snd (delete_contact self inp))%list /\
                (List.length used <= 2)%nat).
Proof.
  split; [apply create_contact_reads|].
  split; [apply find_contact_reads|].
  split; [apply edit_contact_reads | apply delete_contact_reads].
Qed.

(** ** main *)

Lemma run_command_shrinks
    (command : PhoneBook -> list string -> report * PhoneBook * list string)
    (k : nat) (st st' : App) (inp rest : list string) :
  (forall self i, exists used, i = (used ++ snd (command self i))%list /\
                               (List.length used <= k)%nat) ->
  run_command command st inp = (st', rest) ->
  (List.length rest <= List.length inp)%nat /\ files st' = files st /\
  filename st' = filename st /\ saves st' = saves st.
Proof.
  intros H. unfold run_command. specialize (H (phonebook st) inp).
  destruct (command (phonebook st) inp) as [[r pb] rest'].
  destruct H as [u [E _]]. intros [= <- <-]. simpl in E.
  split; [|repeat split].
  apply (f_equal (@List.length string)) in E. rewrite length_app in E. lia.
Qed.

Lemma menu_step_shrinks (io : string -> save_io) (clock : nat -> string)
    (st st' : App) (inp rest : list string) :
  menu_step io clock st inp = Continue st' rest ->
  (List.length rest < List.length inp)%nat.
Proof.
  unfold menu_step. destruct inp as [|l inp]; [discriminate|].
  cbn zeta. simpl List.length.
  destruct (String.eqb _ "1").
  { destruct inp as [|l' inp]; [discriminate|]. intros [= _ <-]. simpl. lia. }
  destruct (String.eqb _ "2"); [intros [= _ <-]; lia|].
  destruct (String.eqb _ "3"); [intros [= _ <-]; lia|].
  destruct (String.eqb _ "4").
  { destruct (run_command create_contact st inp) as [s r] eqn:E.
    intros [= _ <-].
    destruct (run_command_shrinks _ 3 _ _ _ _ create_contact_reads E) as [H _]. lia. }
  destruct (String.eqb _ "5").
  { destruct (run_command find_contact st inp) as [s r] eqn:E.
    intros [= _ <-].
    destruct (run_command_shrinks _ 2 _ _ _ _ find_contact_reads E) as [H _]. lia. }
  destruct (String.eqb _ "6").
  { destruct (run_command edit_contact st inp) as [s r] eqn:E.
    intros [= _ <-].
    destruct (run_command_shrinks _ 4 _ _ _ _ edit_contact_reads E) as [H _]. lia. }
  destruct (String.eqb _ "7").
  { destruct (run_command delete_contact st inp) as [s r] eqn:E.
    intros [= _ <-].
    destruct (run_command_shrinks _ 2 _ _ _ _ delete_contact_reads E) as [H _]. lia. }
  destruct (String.eqb _ "8"); [discriminate|].
  intros [= _ <-]. lia.
Qed.

Lemma main_loop_enough (io : string -> save_io) (clock : nat -> string)
    (fuel : nat) :
  forall st inp, (List.length inp < fuel)%nat ->
    exists st', main_loop io clock fuel st inp = Some st'.
Proof.
  induction fuel as [|fuel IH]; intros st inp H; [lia|].
  simpl. destruct (menu_step io clock st inp) as [s r|s] eqn:E; [|eauto].
  apply IH. apply menu_step_shrinks in E. lia.
Qed.

Lemma main_loop_fuel (io : string -> save_io) (clock : nat -> string)
    (f1 : nat) :
  forall f2 st inp, (List.length inp < f1)%nat -> (List.length inp < f2)%nat ->
    main_loop io clock f1 st inp = main_loop io clock f2 st inp.
Proof.
  induction f1 as [|f1 IH]; intros [|f2] st inp H1 H2; try lia.
  simpl. destruct (menu_step io clock st inp) as [s r|s] eqn:E; [|reflexivity].
  apply menu_step_shrinks in E. apply IH; lia.
Qed.

(** X20.  [main] ends on every input: each turn of its loop that does not
    end the program reads at least one line, so as many turns as there are
    lines, and one more, are enough, and more turns give the same result. *)
Theorem main_ends (io : string -> save_io) (clock : nat -> string)
    (disk : string -> file) (inp : list string) :
  exists st,
    main io clock disk inp = Some st /\
    forall fuel, (List.length inp < fuel)%nat ->
      main_loop io clock fuel (start disk) inp = Some st.
Proof.
  unfold main.
  destruct (main_loop_enough io clock (S (List.length inp)) (start disk) inp)
    as [st E]; [lia|].
  exists st. split; [exact E|]. intros fuel H.
  rewrite <- E. apply main_loop_fuel; lia.
Qed.

Lemma main_ends_witness :
  exists st,
    main (fun _ => WriteOk) (fun _ => "t") (fun _ => NoFile) ["4"; "Ann"; "555"; ""; "9"]
      = Some st /\
    main_loop (fun _ => WriteOk) (fun _ => "t") 9 (start (fun _ => NoFile))
              ["4"; "Ann"; "555"; ""; "9"] = Some st.
Proof.
  destruct (main_ends (fun _ => WriteOk) (fun _ => "t") (fun _ => NoFile)
              ["4"; "Ann"; "555"; ""; "9"]) as [st [E H]].
  exists st. split; [exact E | apply H; simpl; lia].
Defined.


Lemma load_saved_tidy (self other : PhoneBook) (now : string) :
  tidy self ->
  load_from_file other (book_file (contacts self) now)
  = mkLoad true []
      (mkPhoneBook (contacts self) (base_id (map id (contacts self))) false).
Proof.
  intros Ht. pose proof (tidy_nums _ Ht) as Hn.
  pose proof (is_num_not_none _ Hn) as Hnn.
  destruct (load_book_file other (contacts self) now (proj1 Ht) Hn) as [n [Hl Hf]].
  apply first_free_base in Hf.
  - rewrite (ids_with_values_all _ Hnn) in Hf. subst n. exact Hl.
  - rewrite (ids_with_values_all _ Hnn). apply Forall_map. exact (proj2 Ht).
Qed.

(** X22.  When a tidy book is saved under the name [phonebook.json]
    (choice 2, the file is written) and the program is left (choice 8), the
    program ends in the state the save left: the book without unsaved
    changes, the file with the contacts of the book and the time stamp of
    this save, the other files as they were, and one save more than
    before; the lines that follow choice 8, an answer that confirms
    included, change nothing of it.  The program started on these files
    begins with the same contacts, without unsaved changes, and with
    [next_id] one more than the greatest identifier. *)
Theorem saved_book_is_loaded_at_start (io : string -> save_io)
    (clock : nat -> string) (st : App) (rest : list string) (fuel : nat) :
  tidy (phonebook st) ->
  filename st = "phonebook.json" ->
  io "phonebook.json" = WriteOk ->
  (2 <= fuel)%nat ->
  let st' :=
    mkApp (mkPhoneBook (contacts (phonebook st)) (next_id (phonebook st)) false)
          "phonebook.json"
          (fun path => if String.eqb path "phonebook.json"
                       then book_file (contacts (phonebook st)) (clock (saves st))
                       else files st path)
          (S (saves st)) in
  main_loop io clock fuel st ("2" :: "8" :: rest) = Some st' /\
  phonebook (start (files st'))
    = mkPhoneBook (contacts (phonebook st))
                  (base_id (map id (contacts (phonebook st)))) false.
Proof.
  intros Ht Hn Hw Hf st'. destruct fuel as [|[|fuel]]; try lia.
  assert (Hs : save_app io clock st = st').
  { unfold save_app, save_to_file, st', book_file. rewrite Hn, Hw. reflexivity. }
  split.
  - cbn [main_loop].
    change (menu_step io clock st ("2" :: "8" :: rest))
      with (Continue (save_app io clock st) ("8" :: rest)).
    cbn iota.
    change (menu_step io clock (save_app io clock st) ("8" :: rest))
      with (Stop (exit_app io clock (save_app io clock st) rest)).
    cbn iota. rewrite Hs. reflexivity.
  - unfold start, load_app, st'.
    cbn [files filename phonebook set_phonebook String.eqb Ascii.eqb Bool.eqb andb].
    unfold book_file at 1. cbn [path_exists].
    cbn [files filename phonebook set_phonebook String.eqb Ascii.eqb Bool.eqb andb].
    rewrite (load_saved_tidy _ _ _ Ht). reflexivity.
Qed.

Lemma saved_book_is_loaded_at_start_witness :
  main_loop (fun _ => WriteOk) (fun _ => "t") 2
            (mkApp ivan_book "phonebook.json" (fun _ => NoFile) 0) ["2"; "8"; "yes"]
    = Some (mkApp ivan_book "phonebook.json"
                  (fun path => if String.eqb path "phonebook.json"
                               then book_file [ivan; maria; oleg] "t" else NoFile)
                  1) /\
  phonebook (start (fun path => if String.eqb path "phonebook.json"
                                then book_file [ivan; maria; oleg] "t" else NoFile))
    = mkPhoneBook [ivan; maria; oleg] 4 false.
Proof.
  apply (saved_book_is_loaded_at_start (fun _ => WriteOk) (fun _ => "t")
           (mkApp ivan_book "phonebook.json" (fun _ => NoFile) 0) ["yes"] 2).
  - split; repeat constructor.
  - reflexivity.
  - reflexivity.
  - lia.
Defined.

(** ** When a load succeeds *)

Lemma Forall2_In_l {A B} (R : A -> B -> Prop) (l : list A) (l' : list B) (x : A) :
  Forall2 R l l' -> In x l -> exists y, In y l' /\ R x y.
Proof.
  induction 1 as [|a b l l' Hab _ IH]; simpl; [intros []|].
  intros [<- | Hin]; [eauto|]. destruct (IH Hin) as [y [Hy Hr]]. eauto.
Qed.

Lemma read_contacts_length (entries : list json) :
  forall i cs ws, read_contacts i entries = (cs, ws, None) ->
    (List.length cs + List.length ws = List.length entries)%nat /\
    Forall (fun k => (i < k)%nat) ws /\ NoDup ws.
Proof.
  induction entries as [|e rest IH]; intros i cs ws; simpl.
  - intros [= <- <-]. repeat split; constructor.
  - assert (Hskip : (let '(cs0, ws0, x) := read_contacts (S i) rest in
                     (cs0, S i :: ws0, x)) = (cs, ws, None) ->
                    (List.length cs + List.length ws = S (List.length rest))%nat /\
                    Forall (fun k => (i < k)%nat) ws /\ NoDup ws).
    { destruct (read_contacts (S i) rest) as [[cs' ws'] x] eqn:R.
      intros [= <- <- ->]. destruct (IH _ _ _ R) as [H1 [H2 H3]].
      repeat split.
      - simpl. lia.
      - constructor; [lia|]. eapply Forall_impl; [|exact H2].
        intros k Hk. simpl in Hk. lia.
      - constructor; [|exact H3]. intros Hin.
        rewrite Forall_forall in H2. specialize (H2 _ Hin). simpl in H2. lia. }
    destruct (from_dict e) as [c|x].
    + destruct (read_contacts (S i) rest) as [[cs' ws'] y] eqn:R.
      intros [= <- <- ->]. destruct (IH _ _ _ R) as [H1 [H2 H3]].
      repeat split; [simpl; lia | | exact H3].
      eapply Forall_impl; [|exact H2]. intros k Hk. simpl in Hk. lia.
    + destruct x; try discriminate; exact Hskip.
Qed.

Lemma loadable_readable (entries : list json) :
  forallb loadable entries = true -> Forall (fun e => readable e = true) entries.
Proof.
  rewrite forallb_forall, Forall_forall. intros H e He.
  specialize (H e He). unfold loadable in H.
  apply andb_prop in H. apply H.
Qed.

Lemma loadable_ids (entries : list json) :
  forallb loadable entries = true ->
  Forall (fun v => is_num v = true) (file_ids entries).
Proof.
  rewrite forallb_forall, Forall_forall. intros H v Hv.
  unfold file_ids in Hv. apply filter_In in Hv. destruct Hv as [Hv Hn].
  apply in_map_iff in Hv. destruct Hv as [e [<- He]].
  apply filter_In in He. destruct He as [He Hq].
  specialize (H e He). unfold loadable in H. rewrite Hq in H.
  apply andb_prop in H. destruct H as [_ H]. simpl in H.
  destruct (is_none (entry_id e)); [discriminate | exact H].
Qed.

(** X23.  A decoded file whose contacts are a list is loaded exactly when
    every entry is an object which, if it has a name and a phone, has
    strings for its name, its phone and its comment, and a number (an
    integer, a boolean or a float) or nothing for its identifier. *)
Theorem load_succeeds_iff (self : PhoneBook) (d : list (string * json))
    (entries : list json) :
  dict_get "contacts" d = Some (JList entries) ->
  (ok (load_from_file self (Json (JDict d))) = true <->
   forallb loadable entries = true).
Proof.
  intros Hd.
  assert (He : file_entries (JDict d) = Ok entries).
  { simpl. unfold get_default. rewrite Hd. reflexivity. }
  split.
  - intros Hok. destruct (load_ok_inv _ _ Hok)
      as [entries' [cs0 [ws [n [cs [n' [a [He' [Hr [Hf Ha]]]]]]]]]].
    rewrite He in He'. injection He' as <-.
    pose proof (read_contacts_Ok _ _ _ _ Hr) as [Hread _].
    pose proof (first_free_nums _ _ Hf) as K.
    destruct (read_contacts_ids _ _ _ _ Hr) as [Hv _]. rewrite Hv in K.
    apply forallb_forall. intros e Hin.
    rewrite Forall_forall in Hread. unfold loadable.
    rewrite (Hread e Hin). simpl.
    destruct (required e) eqn:Q; [simpl|reflexivity].
    destruct (is_none (entry_id e)) eqn:N; [reflexivity|]. simpl.
    rewrite Forall_forall in K. apply K. unfold file_ids.
    apply filter_In. split; [|rewrite N; reflexivity].
    apply in_map. apply filter_In. split; assumption.
  - intros Hwf.
    destruct (read_contacts_total entries 0 (loadable_readable _ Hwf)) as [cs0 [ws Hr]].
    destruct (first_free_total cs0) as [n Hf].
    { destruct (read_contacts_ids _ _ _ _ Hr) as [-> _]. apply loadable_ids, Hwf. }
    destruct (assign_ids n cs0) as [[cs n'] a] eqn:Ha.
    rewrite (load_run _ _ _ _ _ _ _ _ _ He Hr Hf Ha). reflexivity.
Qed.

Lemma load_succeeds_iff_witness :
  ok (load_from_file ivan_book
        (file_of [entry "Ann" "555" [("id", JFloat 1.5)]; JDict [("name", JStr "Cid")]]))
    = true <->
  forallb loadable [entry "Ann" "555" [("id", JFloat 1.5)]; JDict [("name", JStr "Cid")]]
    = true.
Proof.
  apply (load_succeeds_iff ivan_book
           [("contacts", JList [entry "Ann" "555" [("id", JFloat 1.5)];
                                JDict [("name", JStr "Cid")]])]).
  reflexivity.
Defined.

(** X24.  A load that succeeds accounts for every entry of the list: each
    entry is either a contact of the book or the subject of one warning, so
    the contacts and the warnings together are as many as the entries, and
    no entry is warned about twice. *)
Theorem load_counts_entries (self : PhoneBook) (d : list (string * json))
    (entries : list json) :
  dict_get "contacts" d = Some (JList entries) ->
  ok (load_from_file self (Json (JDict d))) = true ->
  (List.length (contacts (book (load_from_file self (Json (JDict d)))))
   + List.length (skipped (load_from_file self (Json (JDict d))))
   = List.length entries)%nat /\
  NoDup (skipped (load_from_file self (Json (JDict d)))).
Proof.
  intros Hd Hok.
  assert (He : file_entries (JDict d) = Ok entries).
  { simpl. unfold get_default. rewrite Hd. reflexivity. }
  destruct (load_ok_inv _ _ Hok)
    as [entries' [cs0 [ws [n [cs [n' [a [He' [Hr [Hf Ha]]]]]]]]]].
  rewrite He in He'. injection He' as <-.
  rewrite (load_run _ _ _ _ _ _ _ _ _ He Hr Hf Ha). simpl.
  destruct (read_contacts_length _ _ _ _ Hr) as [H1 [_ H3]].
  destruct (assign_ids_nth _ _ _ _ _ Ha) as [_ [_ [Hl _]]].
  split; [lia | exact H3].
Qed.

Lemma load_counts_entries_witness :
  (List.length (contacts (book (load_from_file ivan_book (file_of sample_entries))))
   + List.length (skipped (load_from_file ivan_book (file_of sample_entries)))
   = 4)%nat /\
  NoDup (skipped (load_from_file ivan_book (file_of sample_entries))).
Proof.
  apply (load_counts_entries ivan_book [("contacts", JList sample_entries)] sample_entries);
    reflexivity.
Defined.

